(** * TwitchDropsFarmer: device authorization, transport, orchestrator, broadcaster

    A shallow embedding of [backend/core/twitch.py], [backend/core/miner.py]
    and [backend/core/storage.py], with the properties the specification
    states about them.

    Python objects are records, instance dictionaries and JSON objects are
    finite maps or association lists, exceptions are an explicit result type,
    and everything the code obtains from outside (HTTP replies, the clock,
    [random.choice], subscribers that throw) is an argument. *)

From Stdlib Require Import ZArith Lia.
From stdpp Require Import gmap strings list fin_maps fin_sets pretty.

Local Open Scope Z_scope.

(** ** Python values and exceptions *)

Module Py.

(** The values [json.loads] can produce; [PNone] is also Python's [None]. *)
#[warnings="-register-all"] Inductive pyval : Type :=
| PNone
| PBool (b : bool)
| PInt (z : Z)
| PStr (s : string)
| PList (items : list pyval)
| PDict (fields : list (string * pyval)).

Inductive gql_failure : Type :=
| NotLoggedIn                      (* GQLException("Not logged in") *)
| RequestFailed (status : Z)       (* GQLException("GraphQL request failed: ...") *)
| UnknownOperation (name : string).

Inductive exn : Type :=
| AttributeError (attr : string)
| KeyError (key : string)
| TypeError
| ZeroDivisionError
| JSONDecodeError
| ClientError                      (* aiohttp / requests transport failure *)
| GQLException (why : gql_failure).

Inductive result (A : Type) : Type :=
| Ok (a : A)
| Raise (e : exn).
Arguments Ok {A} a.
Arguments Raise {A} e.

Definition bind {A B} (r : result A) (k : A -> result B) : result B :=
  match r with
  | Ok a => k a
  | Raise e => Raise e
  end.

(** [bool(v)] *)
Definition truthy (v : pyval) : bool :=
  match v with
  | PNone => false
  | PBool b => b
  | PInt z => negb (Z.eqb z 0)
  | PStr s => negb (String.eqb s "")
  | PList l => match l with [] => false | _ => true end
  | PDict d => match d with [] => false | _ => true end
  end.

(** [v is not None] *)
Definition is_not_None (v : pyval) : bool :=
  match v with
  | PNone => false
  | _ => true
  end.

(** [v == s] for a string literal [s] *)
Definition eq_str (v : pyval) (s : string) : bool :=
  match v with
  | PStr t => String.eqb t s
  | _ => false
  end.

(** [d.get(key)] on the fields of a JSON object *)
Fixpoint dict_get (key : string) (d : list (string * pyval)) : option pyval :=
  match d with
  | [] => None
  | (k, v) :: rest => if String.eqb k key then Some v else dict_get key rest
  end.

End Py.

Import Py.

Notation "'let?' x ':=' r 'in' k" := (bind r (fun x => k))
  (at level 10, x name, r at level 100, k at level 200).

(** ** Python operators on decoded JSON *)

Module PyOps.

(** [key in v] for a string [key]: a key of an object, an element of a
    list, a substring of a string; other values are not iterable. *)
Definition contains (key : string) (v : pyval) : result bool :=
  match v with
  | PDict d => Ok (match dict_get key d with Some _ => true | None => false end)
  | PList l => Ok (existsb (fun x => eq_str x key) l)
  | PStr s => Ok (match String.index 0 key s with Some _ => true | None => false end)
  | _ => Raise TypeError
  end.

(** [v[key]] for a string [key] *)
Definition getitem (key : string) (v : pyval) : result pyval :=
  match v with
  | PDict d =>
      match dict_get key d with
      | Some x => Ok x
      | None => Raise (KeyError key)
      end
  | _ => Raise TypeError
  end.

(** [v.get(key, default)] *)
Definition get (key : string) (default : pyval) (v : pyval) : result pyval :=
  match v with
  | PDict d =>
      Ok (match dict_get key d with Some x => x | None => default end)
  | _ => Raise (AttributeError "get")
  end.

(** The values [for x in v] runs through. *)
Definition iterate (v : pyval) : result (list pyval) :=
  match v with
  | PList l => Ok l
  | PDict d => Ok (map (fun kv => PStr (fst kv)) d)
  | PStr s =>
      Ok (map (fun a => PStr (String a EmptyString)) (String.list_ascii_of_string s))
  | _ => Raise TypeError
  end.

End PyOps.

(** ** core/twitch.py *)

Module Twitch.

(** An [AuthManager] instance: the [asyncio.Event] in [_logged_in] and the
    instance dictionary holding the credential attributes.  An attribute
    that has been removed with [delattr] is absent from [attrs]; one that is
    [None] is present with value [PNone]. *)
Record AuthManager : Type := {
  _logged_in : bool;
  attrs : gmap string pyval
}.

(** [AuthManager.__init__] *)
Definition AuthManager_init : AuthManager :=
  {| _logged_in := false;
     attrs := <["client_version" := PNone]>
              (<["session_id" := PNone]>
              (<["device_id" := PNone]>
              (<["access_token" := PNone]>
              (<["user_id" := PNone]> ∅)))) |}.

Definition hasattr (a : AuthManager) (attr : string) : bool :=
  bool_decide (is_Some (attrs a !! attr)).

Definition delattr (a : AuthManager) (attr : string) : AuthManager :=
  {| _logged_in := _logged_in a; attrs := delete attr (attrs a) |}.

Definition setattr (a : AuthManager) (attr : string) (v : pyval) : AuthManager :=
  {| _logged_in := _logged_in a; attrs := <[attr := v]> (attrs a) |}.

(** Reading [self.<attr>]: [AttributeError] when the attribute is gone. *)
Definition getattr (a : AuthManager) (attr : string) : result pyval :=
  match attrs a !! attr with
  | Some v => Ok v
  | None => Raise (AttributeError attr)
  end.

(** [AuthManager._delattrs] *)
Definition _delattrs (a : AuthManager) (names : list string) : AuthManager :=
  foldl (fun acc attr => if hasattr acc attr then delattr acc attr else acc)
        a names.

Definition credential_attrs : list string :=
  ["user_id"; "device_id"; "session_id"; "access_token"; "client_version"].

(** [AuthManager.clear] *)
Definition clear (a : AuthManager) : AuthManager :=
  let a' := _delattrs a credential_attrs in
  {| _logged_in := false; attrs := attrs a' |}.

(** [AuthManager.is_logged_in]: Python's [and] does not evaluate its right
    operand when the left one is false. *)
Definition is_logged_in (a : AuthManager) : result bool :=
  if _logged_in a
  then let? v := getattr a "access_token" in Ok (is_not_None v)
  else Ok false.

(** The [ClientType] constants come from [core/constants.py]; the instance
    carries the ones the code reads. *)
Record ClientType : Type := {
  CLIENT_ID : string;
  USER_AGENT : string
}.

(** A [Twitch] instance (the aiohttp session is left to the environment). *)
Record Twitch : Type := {
  _client_type : ClientType;
  auth : AuthManager
}.

Definition with_auth (tw : Twitch) (a : AuthManager) : Twitch :=
  {| _client_type := _client_type tw; auth := a |}.

(** [Twitch.__init__] *)
Definition Twitch_init (ct : ClientType) : Twitch :=
  {| _client_type := ct; auth := AuthManager_init |}.

(** A header value: a literal, a credential attribute passed as it is, or
    the f-string ["OAuth {token}"]. *)
Inductive header_value : Type :=
| HLit (s : string)
| HAttr (v : pyval)
| HOAuth (token : pyval).

Definition headers : Type := list (string * header_value).

(** [headers[name] = v] on a dictionary kept as an association list *)
Fixpoint set_header (name : string) (v : header_value) (h : headers) : headers :=
  match h with
  | [] => [(name, v)]
  | (k, w) :: rest =>
      if String.eqb k name then (k, v) :: rest else (k, w) :: set_header name v rest
  end.

(** [Twitch.request], up to the call of [session.request]: the keyword
    arguments it hands over ([None] when [kwargs] has no ["headers"]). *)
Definition request (tw : Twitch) (kwargs_headers : option headers)
  : result (option headers) :=
  let? token := getattr (auth tw) "access_token" in
  if truthy token
  then
    let hdrs := match kwargs_headers with Some h => h | None => [] end in
    Ok (Some (set_header "Authorization" (HOAuth token) hdrs))
  else Ok kwargs_headers.

(** What an HTTP endpoint answers: a status with the body as [json()]
    decodes it ([None] when decoding raises), or a transport failure. *)
Inductive http_reply : Type :=
| Reply (status : Z) (body : option pyval)
| TransportFailure.

(** One [session.post] to the GraphQL endpoint. *)
Record gql_post : Type := {
  post_json : pyval;
  post_headers : headers
}.

(** [Twitch.gql_request]: the result, and the posts made, in order. *)
Definition gql_request (tw : Twitch) (operations : list pyval)
  (net : gql_post -> http_reply) : result (list pyval) * list gql_post :=
  match is_logged_in (auth tw) with
  | Raise e => (Raise e, [])
  | Ok false => (Raise (GQLException NotLoggedIn), [])
  | Ok true =>
      let payload :=
        match operations with
        | [op] => op
        | _ => PList operations
        end in
      match getattr (auth tw) "access_token" with
      | Raise e => (Raise e, [])
      | Ok token =>
          let hdrs : headers :=
            [("Content-Type", HLit "text/plain;charset=UTF-8");
             ("Client-ID", HLit (CLIENT_ID (_client_type tw)));
             ("Authorization", HOAuth token)] in
          match getattr (auth tw) "device_id" with
          | Raise e => (Raise e, [])
          | Ok device_id =>
              let hdrs :=
                if truthy device_id
                then hdrs ++ [("X-Device-Id", HAttr device_id)]
                else hdrs in
              let p := {| post_json := payload; post_headers := hdrs |} in
              match net p with
              | TransportFailure => (Raise ClientError, [p])
              | Reply status body =>
                  if negb (Z.eqb status 200)
                  then (Raise (GQLException (RequestFailed status)), [p])
                  else
                    match body with
                    | None => (Raise JSONDecodeError, [p])
                    | Some (PList l) => (Ok l, [p])
                    | Some json_data => (Ok [json_data], [p])
                    end
              end
          end
      end
  end.

(** *** Device-code polling *)

(** How one pass through the body of the polling loop leaves it. *)
Inductive attempt_result : Type :=
| Return (access_token : pyval)    (* line 370 *)
| Break                            (* line 380 *)
| Continue (sleep_again : bool).   (* every [continue]; [true] after slow_down *)

(** The [try] block of [poll_device_auth] applied to the reply of
    [requests.post].  Subscripting or calling [.get] on a decoded body that
    is not an object raises, as a failed [json()] does, and both handlers
    [continue]. *)
Definition handle_reply (r : http_reply) : attempt_result :=
  match r with
  | TransportFailure => Continue false
  | Reply status body =>
      if Z.eqb status 200 then
        match body with
        | Some (PDict json_data) =>
            match dict_get "access_token" json_data with
            | Some access_token => Return access_token
            | None => Continue false
            end
        | _ => Continue false
        end
      else if Z.eqb status 400 then
        match body with
        | Some (PDict json_data) =>
            let error :=
              match dict_get "error" json_data with
              | Some e => e
              | None => PStr ""
              end in
            if eq_str error "authorization_pending" then Continue false
            else if eq_str error "expired_token" || eq_str error "access_denied"
            then Break
            else if eq_str error "slow_down" then Continue true
            else Continue false
        | _ => Continue false
        end
      else Continue false
  end.

(** The two ways the function returns: from the HTTP 200 branch with the
    token, or from its last line with [None]. *)
Inductive poll_outcome : Type :=
| Authenticated (access_token : pyval)
| Failed.

(** A run of the loop: how it ended, the time (seconds slept since the call)
    at which each [requests.post] was made, in order, the time at return,
    and the [AuthManager] it leaves. *)
Record poll_run : Type := {
  outcome : poll_outcome;
  posts : list Z;
  finished : Z;
  auth_after : AuthManager
}.

(** [for attempt in range(max_attempts)], with [remaining] passes left. *)
Fixpoint poll_loop (interval : Z) (server : nat -> http_reply)
  (remaining attempt : nat) (now : Z) (a : AuthManager) : poll_run :=
  match remaining with
  | O => {| outcome := Failed; posts := []; finished := now; auth_after := a |}
  | S remaining' =>
      let t := now + interval in
      match handle_reply (server attempt) with
      | Return access_token =>
          {| outcome := Authenticated access_token; posts := [t]; finished := t;
             auth_after := setattr a "access_token" access_token |}
      | Break =>
          {| outcome := Failed; posts := [t]; finished := t; auth_after := a |}
      | Continue sleep_again =>
          let t' := if sleep_again then t + interval else t in
          let r := poll_loop interval server remaining' (S attempt) t' a in
          {| outcome := outcome r; posts := t :: posts r; finished := finished r;
             auth_after := auth_after r |}
      end
  end.

(** [300 // interval] as the length of [range(max_attempts)] *)
Definition max_attempts (interval : Z) : nat := Z.to_nat (300 / interval).

(** [Twitch.poll_device_auth]; [server k] is the reply to the post of
    attempt [k].  The device code only travels in the payload. *)
Definition poll_device_auth (tw : Twitch) (device_code : string) (interval : Z)
  (server : nat -> http_reply) : result poll_run :=
  if Z.eqb interval 0 then Raise ZeroDivisionError
  else Ok (poll_loop interval server (max_attempts interval) 0 0 (auth tw)).

(** The value the Python function returns. *)
Definition returned (r : poll_run) : pyval :=
  match outcome r with
  | Authenticated access_token => access_token
  | Failed => PNone
  end.

(** Replies by kind. *)
Definition grants (r : http_reply) (token : pyval) : Prop :=
  exists json_data,
    r = Reply 200 (Some (PDict json_data)) /\
    dict_get "access_token" json_data = Some token.

Definition error_reply (r : http_reply) (code : string) : Prop :=
  exists json_data,
    r = Reply 400 (Some (PDict json_data)) /\
    dict_get "error" json_data = Some (PStr code).

Definition denies (r : http_reply) : Prop :=
  error_reply r "expired_token" \/ error_reply r "access_denied".

(** *** Persisted queries and the one-operation wrappers *)

(** [headers.get(name)] on the association list. *)
Fixpoint get_header (name : string) (h : headers) : option header_value :=
  match h with
  | [] => None
  | (k, v) :: rest => if String.eqb k name then Some v else get_header name rest
  end.

(** [Twitch._build_gql_operation]; [GQL_OPERATIONS] is the table of
    [core/constants.py], [variables] is [PNone] when the argument is left
    out. *)
Definition _build_gql_operation (GQL_OPERATIONS : gmap string pyval)
  (operation_name : string) (variables : pyval) : result pyval :=
  match GQL_OPERATIONS !! operation_name with
  | None => Raise (GQLException (UnknownOperation operation_name))
  | Some sha256Hash =>
      let operation :=
        [("operationName", PStr operation_name);
         ("extensions",
          PDict [("persistedQuery",
                  PDict [("version", PInt 1); ("sha256Hash", sha256Hash)])])] in
      Ok (PDict (if truthy variables
                 then operation ++ [("variables", variables)]
                 else operation))
  end.

(** [results[0] if results else {}] *)
Definition first_or_empty (results : list pyval) : pyval :=
  match results with
  | r :: _ => r
  | [] => PDict []
  end.

(** The body the one-operation wrappers share: build the operation, send
    it alone, hand back the first result. *)
Definition single_operation (GQL_OPERATIONS : gmap string pyval) (tw : Twitch)
  (operation_name : string) (variables : pyval) (net : gql_post -> http_reply)
  : result pyval * list gql_post :=
  match _build_gql_operation GQL_OPERATIONS operation_name variables with
  | Raise e => (Raise e, [])
  | Ok operation =>
      match gql_request tw [operation] net with
      | (Ok results, sent) => (Ok (first_or_empty results), sent)
      | (Raise e, sent) => (Raise e, sent)
      end
  end.

(** [Twitch.get_drops_dashboard] *)
Definition get_drops_dashboard GQL_OPERATIONS tw net :=
  single_operation GQL_OPERATIONS tw "ViewerDropsDashboard"
    (PDict [("fetchRewardCampaigns", PBool false)]) net.

(** [Twitch.get_inventory] *)
Definition get_inventory GQL_OPERATIONS tw net :=
  single_operation GQL_OPERATIONS tw "Inventory"
    (PDict [("fetchRewardCampaigns", PBool false)]) net.

(** [Twitch.get_stream_access_token] *)
Definition get_stream_access_token GQL_OPERATIONS tw (channel_login : string) net :=
  single_operation GQL_OPERATIONS tw "PlaybackAccessToken"
    (PDict [("isLive", PBool true); ("isVod", PBool false);
            ("login", PStr channel_login); ("platform", PStr "web");
            ("playerType", PStr "site"); ("vodID", PStr "")]) net.

(** [Twitch.get_channel_points_context] *)
Definition get_channel_points_context GQL_OPERATIONS tw (channel_login : string) net :=
  single_operation GQL_OPERATIONS tw "ChannelPointsContext"
    (PDict [("channelLogin", PStr channel_login)]) net.

(** [Twitch.claim_drop_reward] *)
Definition claim_drop_reward GQL_OPERATIONS tw (drop_instance_id : string) net :=
  single_operation GQL_OPERATIONS tw "DropsPage_ClaimDropRewards"
    (PDict [("input", PDict [("dropInstanceID", PStr drop_instance_id)])]) net.

(** [Twitch.claim_community_points] *)
Definition claim_community_points GQL_OPERATIONS tw (claim_id channel_id : string) net :=
  single_operation GQL_OPERATIONS tw "ClaimCommunityPoints"
    (PDict [("input", PDict [("claimID", PStr claim_id);
                             ("channelID", PStr channel_id)])]) net.

(** [Twitch.get_current_drop_context] *)
Definition get_current_drop_context GQL_OPERATIONS tw (channel_id : string) net :=
  single_operation GQL_OPERATIONS tw "DropCurrentSessionContext"
    (PDict [("channelID", PStr channel_id); ("channelLogin", PStr "")]) net.

(** *** Stream discovery *)

(** One dictionary of the list [get_streams_for_game] returns. *)
Record stream_dict : Type := {
  dict_id : pyval;
  dict_user_login : pyval;
  dict_user_name : pyval;
  dict_title : pyval;
  dict_viewer_count : pyval;
  dict_language : pyval
}.

(** The body of [for edge in stream_data["edges"]]: the stream to append,
    if the edge has a node. *)
Definition stream_of_edge (edge : pyval) : result (option stream_dict) :=
  let? has_node := PyOps.contains "node" edge in
  if has_node then
    let? node := PyOps.getitem "node" edge in
    let? broadcaster := PyOps.get "broadcaster" (PDict []) node in
    let? id := PyOps.get "id" (PStr "") node in
    let? user_login := PyOps.get "login" (PStr "") broadcaster in
    let? user_name := PyOps.get "displayName" (PStr "") broadcaster in
    let? title := PyOps.get "title" (PStr "") node in
    let? viewer_count := PyOps.get "viewersCount" (PInt 0) node in
    let? settings := PyOps.get "broadcastSettings" (PDict []) broadcaster in
    let? language := PyOps.get "language" (PStr "en") settings in
    Ok (Some {| dict_id := id; dict_user_login := user_login;
                dict_user_name := user_name; dict_title := title;
                dict_viewer_count := viewer_count; dict_language := language |})
  else Ok None.

(** The loop over the edges, appending to [streams]. *)
Fixpoint streams_of_edges (edges : list pyval) (streams : list stream_dict)
  : result (list stream_dict) :=
  match edges with
  | [] => Ok streams
  | edge :: rest =>
      let? found := stream_of_edge edge in
      match found with
      | Some stream => streams_of_edges rest (streams ++ [stream])
      | None => streams_of_edges rest streams
      end
  end.

(** [Twitch.get_streams_for_game], lines 206 to 228: the streams read out
    of the results of the request. *)
Definition parse_streams (results : list pyval) : result (list stream_dict) :=
  match results with
  | [] => Ok []
  | first :: _ =>
      let? has_data := PyOps.contains "data" first in
      if has_data then
        let? data := PyOps.getitem "data" first in
        let? has_game := PyOps.contains "game" data in
        if has_game then
          let? game := PyOps.getitem "game" data in
          if truthy game then
            let? has_streams := PyOps.contains "streams" game in
            if has_streams then
              let? stream_data := PyOps.getitem "streams" game in
              let? has_edges := PyOps.contains "edges" stream_data in
              if has_edges then
                let? edges_value := PyOps.getitem "edges" stream_data in
                let? edges := PyOps.iterate edges_value in
                streams_of_edges edges []
              else Ok []
            else Ok []
          else Ok []
        else Ok []
      else Ok []
  end.

(** [Twitch.get_streams_for_game] *)
Definition get_streams_for_game (GQL_OPERATIONS : gmap string pyval)
  (tw : Twitch) (game_name : string) (limit : Z) (net : gql_post -> http_reply)
  : result (list stream_dict) * list gql_post :=
  match _build_gql_operation GQL_OPERATIONS "DirectoryPage_Game"
          (PDict [("name", PStr game_name);
                  ("options",
                   PDict [("includeRestricted", PList [PStr "SUB_ONLY_LIVE"]);
                          ("sort", PStr "RELEVANCE");
                          ("systemFilters", PList [PStr "DROPS_ENABLED"]);
                          ("tags", PList []);
                          ("broadcasterLanguages", PList []);
                          ("freeformTags", PNone);
                          ("recommendationsContext",
                           PDict [("platform", PStr "web")]);
                          ("requestID", PStr "JIRA-VXP-2397")]);
                  ("sortTypeIsRecency", PBool false);
                  ("limit", PInt limit);
                  ("imageWidth", PInt 50);
                  ("includeIsDJ", PBool false)]) with
  | Raise e => (Raise e, [])
  | Ok operation =>
      match gql_request tw [operation] net with
      | (Ok results, sent) => (parse_streams results, sent)
      | (Raise e, sent) => (Raise e, sent)
      end
  end.

(** *** Start of the device flow *)

(** How [start_device_auth] can fail; every failure is logged and raised
    again. *)
Inductive device_auth_failure : Type :=
| ConnectionFailed                  (* [requests.post] raised *)
| HTTPError (status : Z)            (* [raise_for_status] *)
| InvalidJSON                       (* [response.json()] raised *)
| NotAnObject                       (* subscripting a non-object: TypeError *)
| MissingField (key : string).      (* KeyError *)

Definition device_field (key : string) (json_data : pyval)
  : device_auth_failure + pyval :=
  match json_data with
  | PDict d =>
      match dict_get key d with
      | Some v => inr v
      | None => inl (MissingField key)
      end
  | _ => inl NotAnObject
  end.

(** [Twitch.start_device_auth] on the reply of the device endpoint. *)
Definition start_device_auth (reply : http_reply)
  : device_auth_failure + list (string * pyval) :=
  match reply with
  | TransportFailure => inl ConnectionFailed
  | Reply status body =>
      if (400 <=? status) && (status <? 600) then inl (HTTPError status)
      else
        match body with
        | None => inl InvalidJSON
        | Some json_data =>
            match device_field "verification_uri" json_data with
            | inl e => inl e
            | inr verification_uri =>
            match device_field "user_code" json_data with
            | inl e => inl e
            | inr user_code =>
            match device_field "device_code" json_data with
            | inl e => inl e
            | inr device_code =>
            match device_field "expires_in" json_data with
            | inl e => inl e
            | inr expires_in =>
            match device_field "interval" json_data with
            | inl e => inl e
            | inr interval =>
                inr [("verification_uri", verification_uri);
                     ("user_code", user_code);
                     ("device_code", device_code);
                     ("expires_in", expires_in);
                     ("interval", interval)]
            end end end end end
        end
  end.

(** *** Shapes of a discovery answer *)

Definition or_default (default : pyval) (o : option pyval) : pyval :=
  match o with
  | Some v => v
  | None => default
  end.

(** The stream read out of a node whose broadcaster is the object [b] with
    broadcast settings [settings]. *)
Definition stream_of_node (n b settings : list (string * pyval)) : stream_dict :=
  {| dict_id := or_default (PStr "") (dict_get "id" n);
     dict_user_login := or_default (PStr "") (dict_get "login" b);
     dict_user_name := or_default (PStr "") (dict_get "displayName" b);
     dict_title := or_default (PStr "") (dict_get "title" n);
     dict_viewer_count := or_default (PInt 0) (dict_get "viewersCount" n);
     dict_language := or_default (PStr "en") (dict_get "language" settings) |}.

(** An edge object without a node yields nothing; an edge object whose node,
    broadcaster and broadcast settings are objects (the last two may be
    left out) yields the stream of that node. *)
Inductive edge_yields : pyval -> option stream_dict -> Prop :=
| edge_without_node e :
    dict_get "node" e = None -> edge_yields (PDict e) None
| edge_with_node e n b settings :
    dict_get "node" e = Some (PDict n) ->
    or_default (PDict []) (dict_get "broadcaster" n) = PDict b ->
    or_default (PDict []) (dict_get "broadcastSettings" b) = PDict settings ->
    edge_yields (PDict e) (Some (stream_of_node n b settings)).

(** [isinstance(v, dict)] *)
Definition is_object (v : pyval) : bool :=
  match v with
  | PDict _ => true
  | _ => false
  end.

(** An edge object whose node, or the node's broadcaster, or the
    broadcaster's broadcast settings is there without being an object (null,
    say): [.get] is called on it. *)
Inductive edge_breaks : pyval -> Prop :=
| node_not_object e node :
    dict_get "node" e = Some node -> is_object node = false ->
    edge_breaks (PDict e)
| broadcaster_not_object e n :
    dict_get "node" e = Some (PDict n) ->
    is_object (or_default (PDict []) (dict_get "broadcaster" n)) = false ->
    edge_breaks (PDict e)
| settings_not_object e n b :
    dict_get "node" e = Some (PDict n) ->
    or_default (PDict []) (dict_get "broadcaster" n) = PDict b ->
    is_object (or_default (PDict []) (dict_get "broadcastSettings" b)) = false ->
    edge_breaks (PDict e).

(** The answer object [top] carries [edges] under data, game, streams. *)
Definition carries_edges (top : list (string * pyval)) (edges : pyval) : Prop :=
  exists data game stream_data,
    dict_get "data" top = Some (PDict data) /\
    dict_get "game" data = Some (PDict game) /\
    dict_get "streams" game = Some (PDict stream_data) /\
    dict_get "edges" stream_data = Some edges.

(** *** The states an [AuthManager] goes through

    The instance is created by [Twitch.__init__]; after that the only code
    that writes to it is [poll_device_auth] and [clear] (the logout route). *)
Inductive auth_reachable : AuthManager -> Prop :=
| reach_init : auth_reachable AuthManager_init
| reach_clear a : auth_reachable a -> auth_reachable (clear a)
| reach_poll a ct device_code interval server r :
    auth_reachable a ->
    poll_device_auth {| _client_type := ct; auth := a |} device_code interval
      server = Ok r ->
    auth_reachable (auth_after r).

End Twitch.

(** ** core/storage.py *)

Module Storage.

Record Game : Type := {
  Game_id : string;
  Game_name : string;
  Game_display_name : string;
  Game_box_art_url : string
}.

Record Stream : Type := {
  Stream_id : string;
  Stream_user_id : string;
  Stream_user_login : string;
  Stream_user_name : string;
  Stream_title : string;
  Stream_viewer_count : Z;
  Stream_language : string;
  Stream_game_id : string;
  Stream_game_name : string
}.

(** Timestamps are seconds on the UTC clock. *)
Record MinerStatus : Type := {
  status_is_running : bool;
  status_current_game : option Game;
  status_current_stream : option Stream;
  status_watch_duration : Z;
  status_total_watched : Z;
  status_games_queue : list Game;
  status_last_update : Z
}.

Record LogEntry : Type := {
  LogEntry_timestamp : Z;
  LogEntry_level : string;
  LogEntry_message : string;
  LogEntry_game_id : string;
  LogEntry_stream_id : string
}.

(** The JSON files under the working directory, as their decoded content:
    the ["games"] list of settings.json, games.json, logs.json, and every
    snapshot written to status.json, oldest first (the file holds the last). *)
Record Storage : Type := {
  settings_games : list string;
  games_file : gmap string Game;
  logs_file : list LogEntry;
  status_writes : list MinerStatus
}.

(** [Storage.__init__] on an empty working directory *)
Definition Storage_init : Storage :=
  {| settings_games := []; games_file := ∅; logs_file := []; status_writes := [] |}.

Definition get_games (st : Storage) : gmap string Game := games_file st.

(** [l[-n:]] for a positive [n] *)
Definition slice_last {A} (n : nat) (l : list A) : list A :=
  drop (length l - n)%nat l.

(** [Storage.add_log] *)
Definition add_log (entry : LogEntry) (st : Storage) : Storage :=
  let logs_data := logs_file st ++ [entry] in
  let logs_data :=
    if (1000 <? length logs_data)%nat then slice_last 1000 logs_data
    else logs_data in
  {| settings_games := settings_games st; games_file := games_file st;
     logs_file := logs_data; status_writes := status_writes st |}.

(** [Storage.save_miner_status]; the caller's clock stamps [last_update]. *)
Definition save_miner_status (now : Z) (status : MinerStatus) (st : Storage)
  : Storage :=
  let status :=
    {| status_is_running := status_is_running status;
       status_current_game := status_current_game status;
       status_current_stream := status_current_stream status;
       status_watch_duration := status_watch_duration status;
       status_total_watched := status_total_watched status;
       status_games_queue := status_games_queue status;
       status_last_update := now |} in
  {| settings_games := settings_games st; games_file := games_file st;
     logs_file := logs_file st; status_writes := status_writes st ++ [status] |}.

(** The last [n] elements of a list, in order, as the specification words
    the retention rule. *)
Definition last_elements {A} (n : nat) (l : list A) : list A :=
  rev (take n (rev l)).

(** *** Games, logs and drops *)

Definition with_games (ids : list string) (games : gmap string Game)
  (st : Storage) : Storage :=
  {| settings_games := ids; games_file := games; logs_file := logs_file st;
     status_writes := status_writes st |}.

(** [Storage.get_game] *)
Definition get_game (game_id : string) (st : Storage) : option Game :=
  get_games st !! game_id.

(** [Storage.add_game] *)
Definition add_game (game : Game) (st : Storage) : Storage :=
  let games := <[Game_id game := game]> (get_games st) in
  let ids :=
    if bool_decide (Game_id game ∈ settings_games st) then settings_games st
    else settings_games st ++ [Game_id game] in
  with_games ids games st.

(** [list.remove(x)] once [x in list] is known: the first occurrence goes. *)
Fixpoint remove_first (x : string) (l : list string) : list string :=
  match l with
  | [] => []
  | y :: rest => if String.eqb y x then rest else y :: remove_first x rest
  end.

(** [Storage.remove_game] *)
Definition remove_game (game_id : string) (st : Storage) : Storage :=
  let games :=
    match get_games st !! game_id with
    | Some _ => delete game_id (get_games st)
    | None => get_games st
    end in
  let ids :=
    if bool_decide (game_id ∈ settings_games st)
    then remove_first game_id (settings_games st)
    else settings_games st in
  with_games ids games st.

(** [Storage.reorder_games] *)
Definition reorder_games (game_ids : list string) (st : Storage) : Storage :=
  with_games game_ids (games_file st) st.

(** [Storage.get_logs] *)
Definition get_logs (limit : Z) (st : Storage) : list LogEntry :=
  if 0 <? limit then slice_last (Z.to_nat limit) (logs_file st)
  else logs_file st.

Record Drop : Type := {
  Drop_id : string;
  Drop_name : string;
  Drop_description : string;
  Drop_image_url : string;
  Drop_start_at : string;
  Drop_end_at : string;
  Drop_required_minutes : Z;
  Drop_current_minutes : Z;
  Drop_game_id : string;
  Drop_game_name : string;
  Drop_is_claimed : bool;
  Drop_is_completed : bool
}.

Definition with_progress (minutes : Z) (d : Drop) : Drop :=
  {| Drop_id := Drop_id d; Drop_name := Drop_name d;
     Drop_description := Drop_description d; Drop_image_url := Drop_image_url d;
     Drop_start_at := Drop_start_at d; Drop_end_at := Drop_end_at d;
     Drop_required_minutes := Drop_required_minutes d;
     Drop_current_minutes := minutes;
     Drop_game_id := Drop_game_id d; Drop_game_name := Drop_game_name d;
     Drop_is_claimed := Drop_is_claimed d;
     Drop_is_completed := Drop_required_minutes d <=? minutes |}.

(** [Storage.update_drop_progress] on the content of drops.json: the first
    drop with the id is updated, then the list is saved. *)
Fixpoint update_drop_progress (drop_id : string) (minutes : Z)
  (drops : list Drop) : list Drop :=
  match drops with
  | [] => []
  | drop :: rest =>
      if String.eqb (Drop_id drop) drop_id
      then with_progress minutes drop :: rest
      else drop :: update_drop_progress drop_id minutes rest
  end.

(** [Storage.get_drop_progress] on the content of drops.json *)
Fixpoint get_drop_progress (drop_id : string) (drops : list Drop) : Z :=
  match drops with
  | [] => 0
  | drop :: rest =>
      if String.eqb (Drop_id drop) drop_id then Drop_current_minutes drop
      else get_drop_progress drop_id rest
  end.

End Storage.

(** ** core/miner.py *)

Module Miner.
Import Storage.

(** A registered WebSocket client, by identity. *)
Definition client : Type := nat.

Record stream_payload : Type := {
  payload_id : string;
  payload_userLogin : string;
  payload_userName : string;
  payload_title : string;
  payload_viewerCount : Z
}.

Record status_payload : Type := {
  isRunning : bool;
  currentGame : option Game;
  currentStream : option stream_payload;
  watchDuration : Z;
  totalWatched : Z;
  lastUpdate : Z
}.

(** The two tagged payloads handed to [client.emit("message", ...)]. *)
Inductive message : Type :=
| StatusMessage (data : status_payload)
| LogMessage (data : LogEntry).

(** A [Miner] instance.  [emitted] records every [client.emit] call that
    returned normally, oldest first; the loop thread is part of [System]
    below. *)
Record Miner : Type := {
  storage : Storage;
  is_running : bool;
  current_game : option Game;
  current_stream : option Stream;
  watch_start_time : option Z;
  _stop_event : bool;
  ws_clients : gset client;
  emitted : list (client * message)
}.

(** The fields that say what the instance is doing. *)
Definition control (m : Miner)
  : bool * option Game * option Stream * option Z * bool :=
  (is_running m, current_game m, current_stream m, watch_start_time m,
   _stop_event m).

(** The deliveries of [status] messages among the recorded ones. *)
Definition status_deliveries (sent : list (client * message))
  : list (client * message) :=
  List.filter
    (fun d => match d.2 with StatusMessage _ => true | LogMessage _ => false end)
    sent.

(** The part of [control] no pass of the loop touches once the game is set. *)
Definition standing (m : Miner) : bool * option Game * bool :=
  (is_running m, current_game m, _stop_event m).

(** [Miner.__init__] *)
Definition Miner_init (st : Storage) : Miner :=
  {| storage := st; is_running := false; current_game := None;
     current_stream := None; watch_start_time := None; _stop_event := false;
     ws_clients := ∅; emitted := [] |}.

Definition with_storage (st : Storage) (m : Miner) : Miner :=
  {| storage := st; is_running := is_running m; current_game := current_game m;
     current_stream := current_stream m; watch_start_time := watch_start_time m;
     _stop_event := _stop_event m; ws_clients := ws_clients m;
     emitted := emitted m |}.

Definition with_control (running stop_event : bool) (m : Miner) : Miner :=
  {| storage := storage m; is_running := running; current_game := current_game m;
     current_stream := current_stream m; watch_start_time := watch_start_time m;
     _stop_event := stop_event; ws_clients := ws_clients m;
     emitted := emitted m |}.

Definition with_target (game : option Game) (stream : option Stream)
  (started : option Z) (m : Miner) : Miner :=
  {| storage := storage m; is_running := is_running m; current_game := game;
     current_stream := stream; watch_start_time := started;
     _stop_event := _stop_event m; ws_clients := ws_clients m;
     emitted := emitted m |}.

Definition with_clients (cs : gset client) (m : Miner) : Miner :=
  {| storage := storage m; is_running := is_running m;
     current_game := current_game m; current_stream := current_stream m;
     watch_start_time := watch_start_time m; _stop_event := _stop_event m;
     ws_clients := cs; emitted := emitted m |}.

(** [client.emit] returned normally. *)
Definition delivered (c : client) (msg : message) (m : Miner) : Miner :=
  {| storage := storage m; is_running := is_running m;
     current_game := current_game m; current_stream := current_stream m;
     watch_start_time := watch_start_time m; _stop_event := _stop_event m;
     ws_clients := ws_clients m; emitted := emitted m ++ [(c, msg)] |}.

(** [Miner.add_ws_client] and [Miner.remove_ws_client] *)
Definition add_ws_client (c : client) (m : Miner) : Miner :=
  with_clients ({[c]} ∪ ws_clients m) m.

Definition remove_ws_client (c : client) (m : Miner) : Miner :=
  with_clients (ws_clients m ∖ {[c]}) m.

(** One text per kind of exception, standing for [str(e)]; it only enters
    the messages of log entries. *)
Definition exn_text (e : exn) : string :=
  match e with
  | AttributeError attr => "'AuthManager' object has no attribute '" +:+ attr +:+ "'"
  | KeyError key => "'" +:+ key +:+ "'"
  | TypeError => "TypeError"
  | ZeroDivisionError => "integer division or modulo by zero"
  | JSONDecodeError => "Expecting value"
  | ClientError => "Cannot connect to host"
  | GQLException NotLoggedIn => "Not logged in"
  | GQLException (RequestFailed status) => "GraphQL request failed: " +:+ pretty status
  | GQLException (UnknownOperation name) => "Unknown operation: " +:+ name
  end.

(** [Miner._process_next_game], lines 112 to 117: the first id of the watch
    list that is a key of the games dictionary. *)
Fixpoint select_next_game (watch_list : list string) (games : gmap string Game)
  : option Game :=
  match watch_list with
  | [] => None
  | game_id :: rest =>
      match games !! game_id with
      | Some game => Some game
      | None => select_next_game rest games
      end
  end.

Section Subscribers.

(** How each subscriber answers [emit]: [Some text] when the call raises an
    exception that prints as [text]. *)
Context (emit_raises : client -> message -> option string).

(** [Miner._broadcast_log_update] *)
Definition _broadcast_log_update (entry : LogEntry) (m : Miner) : Miner :=
  if decide (ws_clients m = ∅) then m
  else
    let msg := LogMessage entry in
    foldl (fun m c =>
             match emit_raises c msg with
             | None => delivered c msg m
             | Some _ => remove_ws_client c m
             end)
          m (elements (ws_clients m)).

(** [Miner._log] *)
Definition _log (now : Z) (level msg game_id stream_id : string) (m : Miner)
  : Miner :=
  let entry :=
    {| LogEntry_timestamp := now; LogEntry_level := level;
       LogEntry_message := msg; LogEntry_game_id := game_id;
       LogEntry_stream_id := stream_id |} in
  let m := with_storage (add_log entry (storage m)) m in
  _broadcast_log_update entry m.

Definition status_message (status : MinerStatus) : message :=
  StatusMessage
    {| isRunning := status_is_running status;
       currentGame := status_current_game status;
       currentStream :=
         match status_current_stream status with
         | Some s =>
             Some {| payload_id := Stream_id s;
                     payload_userLogin := Stream_user_login s;
                     payload_userName := Stream_user_name s;
                     payload_title := Stream_title s;
                     payload_viewerCount := Stream_viewer_count s |}
         | None => None
         end;
       watchDuration := status_watch_duration status;
       totalWatched := status_total_watched status;
       lastUpdate := status_last_update status |}.

(** [Miner._broadcast_status_update] *)
Definition _broadcast_status_update (now : Z) (status : MinerStatus) (m : Miner)
  : Miner :=
  if decide (ws_clients m = ∅) then m
  else
    let msg := status_message status in
    foldl (fun m c =>
             match emit_raises c msg with
             | None => delivered c msg m
             | Some e =>
                 let m :=
                   _log now "WARNING"
                        ("Failed to send status update to client: " +:+ e)
                        "" "" m in
                 remove_ws_client c m
             end)
          m (elements (ws_clients m)).

(** The snapshot [Miner._update_status] builds from the instance.  The queue
    lists the games of the catalog in the order of their keys; the code lists
    them in the order games.json has them. *)
Definition snapshot (now : Z) (m : Miner) : MinerStatus :=
  let watch_duration :=
    match watch_start_time m with
    | Some started => if is_running m then now - started else 0
    | None => 0
    end in
  {| status_is_running := is_running m;
     status_current_game := current_game m;
     status_current_stream := current_stream m;
     status_watch_duration := watch_duration;
     status_total_watched := 0;
     status_games_queue := (map_to_list (get_games (storage m))).*2;
     status_last_update := now |}.

(** [Miner._update_status] *)
Definition _update_status (now : Z) (m : Miner) : Miner :=
  let status := snapshot now m in
  let m := with_storage (save_miner_status now status (storage m)) m in
  _broadcast_status_update now status m.

(** What one pass of the mining loop gets from outside: the clock, the
    shared [AuthManager] as the pass finds it, the outcome of
    [get_streams_for_game] and of [get_stream_access_token], and the index
    [random.choice] draws. *)
Record stream_data : Type := {
  data_id : string;
  data_user_login : string;
  data_user_name : string;
  data_title : string;
  data_viewer_count : Z;
  data_language : string
}.

Record tick : Type := {
  now : Z;
  twitch_auth : Twitch.AuthManager;
  streams_for_game : result (list stream_data);
  choice : nat;
  stream_access_token : result pyval
}.

Definition game_id_or_empty (m : Miner) : string :=
  match current_game m with
  | Some g => Game_id g
  | None => ""
  end.

(** [Miner.start]; spawning the thread is the [Start] step of [System]. *)
Definition start (now : Z) (m : Miner) : Miner :=
  if is_running m then m
  else
    let m := with_control true false m in
    let m := _log now "INFO" "Miner started" "" "" m in
    _update_status now m.

(** [Miner.stop]; [join] is what the loop thread still does to the instance
    while [self._thread.join(timeout=5)] waits. *)
Definition stop (now : Z) (join : Miner -> Miner) (m : Miner) : Miner :=
  if negb (is_running m) then m
  else
    let m := with_control false true m in
    let m := join m in
    let m := with_target None None None m in
    let m := _log now "INFO" "Miner stopped" "" "" m in
    _update_status now m.

(** [Miner._switch_to_game] *)
Definition _switch_to_game (now : Z) (game : Game) (m : Miner) : Miner :=
  let m := with_target (Some game) None None m in
  let m :=
    _log now "INFO" ("Switching to game: " +:+ Game_display_name game)
         (Game_id game) "" m in
  _update_status now m.

(** The instance after the game switch of a pass, if one is due. *)
Definition after_switch now (next_game : Game) (m : Miner) : Miner :=
  match current_game m with
  | Some g =>
      if String.eqb (Game_id g) (Game_id next_game) then m
      else _switch_to_game now next_game m
  | None => _switch_to_game now next_game m
  end.

(** [Miner._check_drop_progress]: a placeholder that changes nothing. *)
Definition _check_drop_progress (stream : Stream) (m : Miner) : Miner := m.

(** [Miner._watch_stream] *)
Definition _watch_stream (env : tick) (stream : Stream) (m : Miner) : Miner :=
  match stream_access_token env with
  | Ok _ =>
      let watch_duration :=
        match watch_start_time m with
        | Some started => now env - started
        | None => 0
        end in
      let m :=
        _log (now env) "SUCCESS"
             ("Watching " +:+ Stream_user_name stream +:+ " - "
              +:+ Stream_title stream +:+ " (" +:+ pretty watch_duration +:+ "s)")
             (game_id_or_empty m) (Stream_id stream) m in
      let m := _check_drop_progress stream m in
      _update_status (now env) m
  | Raise e =>
      let m :=
        _log (now env) "ERROR"
             ("Failed to watch stream " +:+ Stream_user_name stream +:+ ": "
              +:+ exn_text e)
             (game_id_or_empty m) (Stream_id stream) m in
      with_target (current_game m) None None m
  end.

(** [Miner._is_stream_live] *)
Definition _is_stream_live (env : tick) (stream : Stream) (m : Miner) : bool :=
  match watch_start_time m with
  | Some started => now env - started <? 30 * 60
  | None => true
  end.

(** [Miner._find_and_watch_stream] *)
Definition _find_and_watch_stream (env : tick) (game : Game) (m : Miner) : Miner :=
  match streams_for_game env with
  | Raise e =>
      _log (now env) "ERROR"
           ("Failed to find streams for game " +:+ Game_display_name game
            +:+ ": " +:+ exn_text e)
           (Game_id game) "" m
  | Ok [] =>
      _log (now env) "WARNING"
           ("No live streams found for game: " +:+ Game_display_name game)
           (Game_id game) "" m
  | Ok (first :: others) =>
      let top := take 5 (first :: others) in
      let selected_stream_data := nth (choice env `mod` length top)%nat top first in
      let selected_stream :=
        {| Stream_id := data_id selected_stream_data;
           Stream_user_id := "";
           Stream_user_login := data_user_login selected_stream_data;
           Stream_user_name := data_user_name selected_stream_data;
           Stream_title := data_title selected_stream_data;
           Stream_viewer_count := data_viewer_count selected_stream_data;
           Stream_language := data_language selected_stream_data;
           Stream_game_id := Game_id game;
           Stream_game_name := Game_display_name game |} in
      let m :=
        with_target (current_game m) (Some selected_stream) (Some (now env)) m in
      let m :=
        _log (now env) "INFO"
             ("Started watching stream: " +:+ Stream_user_name selected_stream
              +:+ " (" +:+ Stream_title selected_stream +:+ ")")
             (Game_id game) (Stream_id selected_stream) m in
      _watch_stream env selected_stream m
  end.

(** [Miner._continue_watching] *)
Definition _continue_watching (env : tick) (m : Miner) : Miner :=
  match current_stream m with
  | Some stream => _watch_stream env stream m
  | None => m
  end.

(** [Miner._process_next_game]; an exception of the login check escapes to
    the loop and leaves the instance as it was. *)
Definition _process_next_game (env : tick) (m : Miner) : result Miner :=
  let? logged_in := Twitch.is_logged_in (twitch_auth env) in
  if negb logged_in
  then Ok (_log (now env) "WARNING" "Not logged in, cannot mine" "" "" m)
  else
    match settings_games (storage m) with
    | [] => Ok (_log (now env) "DEBUG" "No games in watch list" "" "" m)
    | watch_list =>
        match select_next_game watch_list (get_games (storage m)) with
        | None =>
            Ok (_log (now env) "WARNING" "No valid games found in watch list"
                     "" "" m)
        | Some next_game =>
            let m :=
              match current_game m with
              | Some g =>
                  if String.eqb (Game_id g) (Game_id next_game) then m
                  else _switch_to_game (now env) next_game m
              | None => _switch_to_game (now env) next_game m
              end in
            match current_stream m with
            | Some stream =>
                if _is_stream_live env stream m
                then Ok (_continue_watching env m)
                else Ok (_find_and_watch_stream env next_game m)
            | None => Ok (_find_and_watch_stream env next_game m)
            end
        end
    end.

(** The guard of the [while] in [Miner._mining_loop]. *)
Definition loop_guard (m : Miner) : bool :=
  is_running m && negb (_stop_event m).

(** The body of that [while]: one pass, with the handler around it. *)
Definition loop_body (env : tick) (m : Miner) : Miner :=
  match _process_next_game env m with
  | Ok m' => m'
  | Raise e =>
      _log (now env) "ERROR" ("Mining loop iteration error: " +:+ exn_text e)
           "" "" m
  end.

(** *** The instance together with its loop threads

    [in_flight] counts the passes of the loop whose guard has been evaluated
    and whose body has not finished yet.  A body takes effect at once when
    it finishes: the game switch of a pass, which the code makes before the
    pass waits for the network, is placed with the rest of the pass at its
    end. *)
Record System : Type := {
  miner : Miner;
  in_flight : nat
}.

Inductive event : Type :=
| Start (now : Z)                        (* a call of [start()] *)
| Stop (now : Z) (during_join : list tick)
    (* a call of [stop()]; the passes that finish while it joins *)
| Enter                                  (* a loop thread evaluates the guard *)
| Finish (env : tick).                   (* a pass entered earlier finishes *)

Definition finish_all (envs : list tick) (m : Miner) : Miner :=
  foldl (fun m env => loop_body env m) m envs.

Definition step (sys : System) (ev : event) : System :=
  match ev with
  | Start now => {| miner := start now (miner sys); in_flight := in_flight sys |}
  | Stop now during_join =>
      let finishing := take (in_flight sys) during_join in
      {| miner := stop now (finish_all finishing) (miner sys);
         in_flight :=
           if is_running (miner sys)
           then (in_flight sys - length finishing)%nat
           else in_flight sys |}
  | Enter =>
      if loop_guard (miner sys)
      then {| miner := miner sys; in_flight := S (in_flight sys) |}
      else sys
  | Finish env =>
      match in_flight sys with
      | O => sys
      | S k => {| miner := loop_body env (miner sys); in_flight := k |}
      end
  end.

Definition run (sys : System) (evs : list event) : System := foldl step sys evs.

Definition System_init (st : Storage) : System :=
  {| miner := Miner_init st; in_flight := 0 |}.

(** A call of [stop()] whose join sees every pass in flight finish. *)
Definition joins_in_time (sys : System) (ev : event) : bool :=
  match ev with
  | Stop _ during_join => bool_decide (in_flight sys <= length during_join)%nat
  | _ => true
  end.

(** Every [stop()] of the run joins in time. *)
Fixpoint all_join_in_time (sys : System) (evs : list event) : bool :=
  match evs with
  | [] => true
  | ev :: rest => joins_in_time sys ev && all_join_in_time (step sys ev) rest
  end.

(** *** What no operation of the orchestrator does

    [steady m m']: going from [m] to [m'] no subscriber was added, every
    subscriber whose [emit] never raises is still there, the watch list and
    the catalog are the same, and a log of at most 1000 entries is still
    one. *)
Definition steady (m m' : Miner) : Prop :=
  ws_clients m' ⊆ ws_clients m /\
  (forall c, c ∈ ws_clients m -> (forall msg, emit_raises c msg = None) ->
             c ∈ ws_clients m') /\
  settings_games (storage m') = settings_games (storage m) /\
  games_file (storage m') = games_file (storage m) /\
  ((length (logs_file (storage m)) <= 1000)%nat ->
   (length (logs_file (storage m')) <= 1000)%nat).

(** The stream [_find_and_watch_stream] makes of a dictionary it picked. *)
Definition stream_of_data (game : Game) (d : stream_data) : Stream :=
  {| Stream_id := data_id d; Stream_user_id := "";
     Stream_user_login := data_user_login d;
     Stream_user_name := data_user_name d; Stream_title := data_title d;
     Stream_viewer_count := data_viewer_count d;
     Stream_language := data_language d; Stream_game_id := Game_id game;
     Stream_game_name := Game_display_name game |}.

End Subscribers.

(** What holds between calls as long as every [stop()] joins in time. *)
Definition settled (sys : System) : Prop :=
  is_running (miner sys) = false ->
  current_stream (miner sys) = None /\ in_flight sys = 0%nat.

End Miner.

(** ** Concrete inputs *)

Module Scenario.
Import Twitch Storage Miner.

Definition web_client : ClientType :=
  {| CLIENT_ID := "client-id"; USER_AGENT := "Mozilla/5.0" |}.

Definition token_reply : http_reply :=
  Reply 200 (Some (PDict [("access_token", PStr "tok"); ("expires_in", PInt 14400)])).

Definition error_body (code : string) : http_reply :=
  Reply 400 (Some (PDict [("status", PInt 400); ("error", PStr code)])).

(** The user approves while the first attempt is on its way. *)
Definition approves_at_once (attempt : nat) : http_reply := token_reply.

(** The endpoint answers [slow_down] to every attempt. *)
Definition always_slow_down (attempt : nat) : http_reply := error_body "slow_down".

(** A session that holds a token and has its [_logged_in] event set. *)
Definition signed_in : AuthManager :=
  {| _logged_in := true;
     attrs := <["access_token" := PStr "tok"]> (attrs AuthManager_init) |}.

Definition signed_in_client : Twitch :=
  {| _client_type := web_client; auth := signed_in |}.

Definition playback_operation : pyval :=
  PDict [("operationName", PStr "PlaybackAccessToken")].

(** An endpoint that answers every post with one JSON object. *)
Definition answers_object (p : gql_post) : http_reply :=
  Reply 200 (Some (PDict [("data", PDict [])])).

(** Subscribers that never throw. *)
Definition quiet (c : client) (msg : message) : option string := None.

(** Subscriber 2 has lost its socket; the others are fine. *)
Definition socket_2_closed (c : client) (msg : message) : option string :=
  if Nat.eqb c 2 then Some "socket is closed" else None.

Definition game1 : Game :=
  {| Game_id := "g1"; Game_name := "game-one"; Game_display_name := "Game One";
     Game_box_art_url := "" |}.

(** A watch list whose first id the catalog does not know. *)
Definition store1 : Storage :=
  {| settings_games := ["g9"; "g1"]; games_file := {["g1" := game1]};
     logs_file := []; status_writes := [] |}.

Definition streamA : stream_data :=
  {| data_id := "s-a"; data_user_login := "alice"; data_user_name := "Alice";
     data_title := "Drops on"; data_viewer_count := 120; data_language := "en" |}.

Definition streamB : stream_data :=
  {| data_id := "s-b"; data_user_login := "bob"; data_user_name := "Bob";
     data_title := "More drops"; data_viewer_count := 80; data_language := "en" |}.

(** A pass at time [t] of a logged-in session that is offered [streams]
    and whose watch request ends as [token]. *)
Definition pass (t : Z) (streams : list stream_data) (token : result pyval)
  : tick :=
  {| now := t; twitch_auth := signed_in; streams_for_game := Ok streams;
     choice := 0; stream_access_token := token |}.

(** Alice's stream as the orchestrator records it. *)
Definition alice_stream : Stream :=
  {| Stream_id := "s-a"; Stream_user_id := ""; Stream_user_login := "alice";
     Stream_user_name := "Alice"; Stream_title := "Drops on";
     Stream_viewer_count := 120; Stream_language := "en";
     Stream_game_id := "g1"; Stream_game_name := "Game One" |}.

(** Started, then one pass that adopts Alice's stream. *)
Definition watching : Miner :=
  loop_body quiet (pass 10 [streamA] (Ok (PDict [])))
    (start quiet 0 (Miner_init store1)).

(** The next pass: the watch request for Alice's stream fails. *)
Definition after_failure : Miner :=
  loop_body quiet (pass 30 [streamA] (Raise ClientError)) watching.

(** The pass after that finds Bob's stream and watches it. *)
Definition after_rediscovery : Miner :=
  loop_body quiet (pass 50 [streamB] (Ok (PDict []))) after_failure.

(** [stop()] gives up joining while a pass is waiting for the network; the
    pass finishes afterwards. *)
Definition late_pass : list event :=
  [Start 0; Enter; Stop 1 []; Finish (pass 10 [streamA] (Ok (PDict [])))].

(** The same pass finishing while [stop()] joins. *)
Definition pass_joined : list event :=
  [Start 0; Enter; Stop 1 [pass 10 [streamA] (Ok (PDict []))]].

Definition three_subscribers : Miner :=
  add_ws_client 3%nat (add_ws_client 2%nat (add_ws_client 1%nat (Miner_init store1))).

Definition warning_entry : LogEntry :=
  {| LogEntry_timestamp := 7; LogEntry_level := "WARNING";
     LogEntry_message := "No live streams found for game: Game One";
     LogEntry_game_id := "g1"; LogEntry_stream_id := "" |}.

(** A table of persisted queries with two entries. *)
Definition known_operations : gmap string pyval :=
  <["PlaybackAccessToken" := PStr "hash-playback"]>
    (<["DirectoryPage_Game" := PStr "hash-directory"]> ∅).

(** Two edges of a discovery answer: a live channel, and an edge that has
    no node. *)
Definition alice_node : list (string * pyval) :=
  [("id", PStr "s-a"); ("title", PStr "Drops on"); ("viewersCount", PInt 120);
   ("broadcaster",
    PDict [("login", PStr "alice"); ("displayName", PStr "Alice")])].

Definition discovery_edges : list pyval :=
  [PDict [("node", PDict alice_node)]; PDict [("cursor", PStr "x")]].

Definition discovery_answer : list (string * pyval) :=
  [("data",
    PDict [("game",
            PDict [("name", PStr "game-one");
                   ("streams", PDict [("edges", PList discovery_edges)])])])].

(** An edge whose channel has no broadcaster (null), and an answer that
    ends with it. *)
Definition null_broadcaster_edge : pyval :=
  PDict [("node", PDict [("id", PStr "s-c"); ("broadcaster", PNone)])].

Definition broken_answer : list (string * pyval) :=
  [("data",
    PDict [("game",
            PDict [("streams",
                    PDict [("edges",
                            PList (discovery_edges ++ [null_broadcaster_edge]))])])])].

(** The orchestrator running with a full log file. *)
Definition full_log : Storage :=
  {| settings_games := []; games_file := ∅;
     logs_file := replicate 1000 warning_entry; status_writes := [] |}.

End Scenario.

(** * Properties *)

Import Twitch Scenario.

(** ** The credential attributes *)

Section AuthManagerFacts.

Lemma delattrs_step_attrs (a : AuthManager) (attr : string) :
  attrs (if hasattr a attr then delattr a attr else a) = delete attr (attrs a).
Proof.
  unfold hasattr. destruct (attrs a !! attr) eqn:E.
  - rewrite bool_decide_eq_true_2 by eauto. reflexivity.
  - rewrite bool_decide_eq_false_2 by (intros [? ?]; discriminate).
    symmetry. apply delete_id. exact E.
Qed.

Lemma delattrs_step_flag (a : AuthManager) (attr : string) :
  _logged_in (if hasattr a attr then delattr a attr else a) = _logged_in a.
Proof. destruct (hasattr a attr); reflexivity. Qed.

Lemma delattrs_lookup (names : list string) (a : AuthManager) (x : string) :
  attrs (_delattrs a names) !! x =
  if bool_decide (x ∈ names) then None else attrs a !! x.
Proof.
  unfold _delattrs. revert a.
  induction names as [|n names IH]; intros a; simpl.
  - reflexivity.
  - rewrite IH, delattrs_step_attrs.
    destruct (decide (x = n)) as [->|Hne].
    + rewrite lookup_delete_eq.
      rewrite (bool_decide_eq_true_2 (n ∈ n :: names)) by (left; reflexivity).
      destruct (bool_decide (n ∈ names)); reflexivity.
    + rewrite lookup_delete_ne by congruence.
      destruct (decide (x ∈ names)) as [Hin|Hnin].
      * rewrite (bool_decide_eq_true_2 (x ∈ n :: names)) by (right; exact Hin).
        rewrite (bool_decide_eq_true_2 (x ∈ names)) by exact Hin. reflexivity.
      * rewrite (bool_decide_eq_false_2 (x ∈ n :: names))
          by (rewrite elem_of_cons; intros [?|?]; contradiction).
        rewrite (bool_decide_eq_false_2 (x ∈ names)) by exact Hnin. reflexivity.
Qed.

Lemma clear_lookup (a : AuthManager) (x : string) :
  x ∈ credential_attrs -> attrs (clear a) !! x = None.
Proof.
  intros Hin.
  change (attrs (clear a)) with (attrs (_delattrs a credential_attrs)).
  rewrite delattrs_lookup.
  rewrite bool_decide_eq_true_2 by assumption. reflexivity.
Qed.

Lemma clear_flag (a : AuthManager) : _logged_in (clear a) = false.
Proof. reflexivity. Qed.

End AuthManagerFacts.

(** ** Device-code polling *)

Section PollFacts.

Lemma poll_loop_flag interval server remaining attempt now a :
  _logged_in (auth_after (poll_loop interval server remaining attempt now a))
  = _logged_in a.
Proof.
  revert attempt now.
  induction remaining as [|n IH]; intros attempt now; simpl.
  - reflexivity.
  - destruct (handle_reply (server attempt)); simpl; [reflexivity..|apply IH].
Qed.

(** No call of [poll_device_auth] changes the [_logged_in] event. *)
Lemma poll_device_auth_flag tw device_code interval server r :
  poll_device_auth tw device_code interval server = Ok r ->
  _logged_in (auth_after r) = _logged_in (auth tw).
Proof.
  unfold poll_device_auth. destruct (interval =? 0); [discriminate|].
  intros [= <-]. apply poll_loop_flag.
Qed.

(** What a reply makes of one attempt, by kind of reply. *)
Lemma handle_reply_Return r token :
  handle_reply r = Return token <-> grants r token.
Proof.
  unfold grants. split.
  - destruct r as [status body|]; simpl; [|discriminate].
    destruct (Z.eqb_spec status 200) as [->|_].
    + destruct body as [[| | | | |json_data]|]; try discriminate.
      destruct (dict_get "access_token" json_data) eqn:E; [|discriminate].
      intros [= <-]. eauto.
    + destruct (status =? 400); [|discriminate].
      destruct body as [[| | | | |json_data]|]; try discriminate.
      repeat match goal with |- context [if ?b then _ else _] => destruct b end;
        discriminate.
  - intros (json_data & -> & Hget). simpl. rewrite Hget. reflexivity.
Qed.

Lemma eq_str_true v s : eq_str v s = true <-> v = PStr s.
Proof.
  destruct v; simpl; try (split; [discriminate|intros; discriminate]).
  rewrite String.eqb_eq. split; [intros ->; reflexivity|intros [= ->]; reflexivity].
Qed.

Lemma handle_reply_Break r : handle_reply r = Break <-> denies r.
Proof.
  unfold denies, error_reply. split.
  - destruct r as [status body|]; simpl; [|discriminate].
    destruct (Z.eqb_spec status 200) as [->|_].
    { destruct body as [[| | | | |json_data]|]; try discriminate.
      destruct (dict_get "access_token" json_data); discriminate. }
    destruct (Z.eqb_spec status 400) as [->|_]; [|discriminate].
    destruct body as [[| | | | |json_data]|]; try discriminate.
    destruct (dict_get "error" json_data) as [e|] eqn:E.
    + destruct (eq_str e "authorization_pending"); [discriminate|].
      destruct (eq_str e "expired_token") eqn:E1.
      { apply eq_str_true in E1 as ->. intros _. left. eauto. }
      destruct (eq_str e "access_denied") eqn:E2.
      { apply eq_str_true in E2 as ->. intros _. right. eauto. }
      simpl. destruct (eq_str e "slow_down"); discriminate.
    + simpl. discriminate.
  - intros [(json_data & -> & Hget)|(json_data & -> & Hget)];
      simpl; rewrite Hget; reflexivity.
Qed.

Lemma handle_reply_slow_down r :
  error_reply r "slow_down" -> handle_reply r = Continue true.
Proof. intros (json_data & -> & Hget). simpl. rewrite Hget. reflexivity. Qed.

Lemma handle_reply_pending r :
  error_reply r "authorization_pending" -> handle_reply r = Continue false.
Proof. intros (json_data & -> & Hget). simpl. rewrite Hget. reflexivity. Qed.

(** The attempts of a run: all but the last one [continue], and the last one
    decides how the run ends. *)
Lemma poll_loop_shape interval server remaining attempt now a :
  let r := poll_loop interval server remaining attempt now a in
  (length (posts r) <= remaining)%nat /\
  (forall k, (S k < length (posts r))%nat ->
     exists b, handle_reply (server (attempt + k)%nat) = Continue b) /\
  match outcome r with
  | Authenticated token =>
      exists k, length (posts r) = S k /\
                handle_reply (server (attempt + k)%nat) = Return token
  | Failed =>
      (exists k, length (posts r) = S k /\
                 handle_reply (server (attempt + k)%nat) = Break) \/
      (length (posts r) = remaining /\
       forall k, (k < remaining)%nat ->
         exists b, handle_reply (server (attempt + k)%nat) = Continue b)
  end.
Proof.
  revert attempt now.
  induction remaining as [|n IH]; intros attempt now; simpl.
  - split; [lia|]. split; [intros k Hk; simpl in Hk; lia|].
    right. split; [reflexivity|]. intros k Hk. lia.
  - destruct (handle_reply (server attempt)) as [token| |b] eqn:E; simpl.
    + split; [lia|]. split; [intros k Hk; lia|].
      exists 0%nat. rewrite Nat.add_0_r. auto.
    + split; [lia|]. split; [intros k Hk; lia|].
      left. exists 0%nat. rewrite Nat.add_0_r. auto.
    + specialize (IH (S attempt) (if b then now + interval + interval
                                  else now + interval)).
      simpl in IH. destruct IH as (Hlen & Hpre & Hend).
      split; [lia|]. split.
      * intros [|k] Hk.
        -- rewrite Nat.add_0_r. eauto.
        -- replace (attempt + S k)%nat with (S attempt + k)%nat by lia.
           apply Hpre. lia.
      * destruct (outcome _) as [token|].
        -- destruct Hend as (k & Hk & Hr). exists (S k).
           replace (attempt + S k)%nat with (S attempt + k)%nat by lia.
           split; [lia|exact Hr].
        -- destruct Hend as [(k & Hk & Hr)|(Hk & Hall)].
           ++ left. exists (S k).
              replace (attempt + S k)%nat with (S attempt + k)%nat by lia.
              split; [lia|exact Hr].
           ++ right. split; [lia|]. intros [|k] Hlt.
              ** rewrite Nat.add_0_r. eauto.
              ** replace (attempt + S k)%nat with (S attempt + k)%nat by lia.
                 apply Hall. lia.
Qed.

End PollFacts.

Section PollTermination.

Variables (tw : Twitch) (device_code : string) (interval : Z).
Variable server : nat -> http_reply.

(** C2.  For a positive interval the call returns, after at most
    [300 / interval] attempts (the quotient rounded down).  It ends Authenticated exactly when one of
    the attempts it made was answered by HTTP 200 with an [access_token]
    field; it ends Failed exactly when an attempt was answered by HTTP 400
    with [expired_token] or [access_denied], or when the budget is used up
    without either answer; and an attempt answered in one of these two ways
    is the last one made. *)
Theorem poll_device_auth_terminal_states :
  0 < interval ->
  exists r,
    poll_device_auth tw device_code interval server = Ok r /\
    let made := length (posts r) in
    (made <= Z.to_nat (300 / interval))%nat /\
    ((exists token, outcome r = Authenticated token) <->
     (exists k token, (k < made)%nat /\ grants (server k) token)) /\
    (outcome r = Failed <->
     ((exists k, (k < made)%nat /\ denies (server k)) \/
      (made = Z.to_nat (300 / interval) /\
       forall k, (k < made)%nat ->
         ~ denies (server k) /\ forall token, ~ grants (server k) token))) /\
    (forall k, (k < made)%nat ->
       denies (server k) \/ (exists token, grants (server k) token) ->
       made = S k).
Proof.
  intros Hpos. change (Z.to_nat (300 / interval)) with (max_attempts interval).
  unfold poll_device_auth.
  destruct (Z.eqb_spec interval 0) as [->|_]; [lia|].
  eexists. split; [reflexivity|].
  pose proof (poll_loop_shape interval server (max_attempts interval) 0 0
                (auth tw)) as H.
  cbv zeta in H. simpl in H. cbv zeta.
  set (r := poll_loop interval server (max_attempts interval) 0 0 (auth tw)) in *.
  destruct H as (Hlen & Hpre & Hend).
  assert (Hcont : forall k, (S k < length (posts r))%nat ->
            ~ denies (server k) /\ forall token, ~ grants (server k) token).
  { intros k Hk. destruct (Hpre k Hk) as [b Hb]. split.
    - intros Hd. apply handle_reply_Break in Hd. congruence.
    - intros token Hg. apply handle_reply_Return in Hg. congruence. }
  assert (Hlast : forall k, (k < length (posts r))%nat ->
            denies (server k) \/ (exists token, grants (server k) token) ->
            length (posts r) = S k).
  { intros k Hk Hterm.
    destruct (decide (S k < length (posts r))%nat) as [Hlt|Hge]; [|lia].
    destruct (Hcont k Hlt) as [Hnd Hng].
    destruct Hterm as [Hd|[token Hg]]; [contradiction|].
    exfalso. exact (Hng token Hg). }
  split; [exact Hlen|]. split; [|split; [|exact Hlast]].
  - split.
    + intros [token Hout]. rewrite Hout in Hend.
      destruct Hend as (k & Hk & Hr). exists k, token.
      split; [lia|]. apply handle_reply_Return. exact Hr.
    + intros (k & token & Hk & Hg).
      pose proof (Hlast k Hk (or_intror (ex_intro _ token Hg))) as Hmade.
      destruct (outcome r) as [token'|]; [eauto|].
      apply handle_reply_Return in Hg.
      destruct Hend as [(k' & Hk' & Hr)|(Hk' & Hall)].
      * assert (k' = k) as -> by lia. congruence.
      * destruct (Hall k) as [b Hb]; [lia|]. congruence.
  - split.
    + intros Hout. rewrite Hout in Hend.
      destruct Hend as [(k & Hk & Hr)|(Hk & Hall)].
      * left. exists k. split; [lia|]. apply handle_reply_Break. exact Hr.
      * right. split; [exact Hk|]. intros k Hlt.
        destruct (Hall k) as [b Hb]; [lia|]. split.
        -- intros Hd. apply handle_reply_Break in Hd. congruence.
        -- intros token Hg. apply handle_reply_Return in Hg. congruence.
    + intros Hfail. destruct (outcome r) as [token|]; [|reflexivity].
      exfalso. destruct Hend as (k & Hk & Hr).
      destruct Hfail as [(k' & Hk' & Hd)|(_ & Hnone)].
      * pose proof (Hlast k' Hk' (or_introl Hd)) as Hmade.
        assert (k' = k) as -> by lia.
        apply handle_reply_Break in Hd. congruence.
      * destruct (Hnone k) as [_ Hng]; [lia|].
        apply (Hng token). apply handle_reply_Return. exact Hr.
Qed.

End PollTermination.

(** ** Timing of the attempts *)

Section PollTiming.

Variable interval : Z.
Variable server : nat -> http_reply.

(** The first attempt of a run waits [interval]. *)
Lemma poll_loop_first_post remaining attempt now a :
  (0 < remaining)%nat ->
  posts (poll_loop interval server remaining attempt now a) !! 0%nat
  = Some (now + interval).
Proof.
  destruct remaining as [|n]; [lia|]. intros _. simpl.
  destruct (handle_reply (server attempt)); reflexivity.
Qed.

(** After an attempt that [continue]s, and while the budget lasts, the next
    attempt is made one [interval] later, or two after [slow_down]. *)
Lemma poll_loop_next_post remaining attempt now a k b :
  (k < length (posts (poll_loop interval server remaining attempt now a)))%nat ->
  handle_reply (server (attempt + k)%nat) = Continue b ->
  (S k < remaining)%nat ->
  exists t,
    posts (poll_loop interval server remaining attempt now a) !! k = Some t /\
    posts (poll_loop interval server remaining attempt now a) !! S k
    = Some (t + (if b then interval else 0) + interval).
Proof.
  revert attempt now k.
  induction remaining as [|n IH]; intros attempt now k Hk Hr Hlt; [lia|].
  simpl in *.
  destruct (handle_reply (server attempt)) as [token| |b0] eqn:E; simpl in *.
  - assert (k = 0)%nat as -> by lia. rewrite Nat.add_0_r in Hr. congruence.
  - assert (k = 0)%nat as -> by lia. rewrite Nat.add_0_r in Hr. congruence.
  - destruct k as [|k].
    + rewrite Nat.add_0_r in Hr. assert (b0 = b) as -> by congruence.
      exists (now + interval). split; [reflexivity|].
      rewrite poll_loop_first_post by lia.
      destruct b; f_equal; lia.
    + replace (attempt + S k)%nat with (S attempt + k)%nat in Hr by lia.
      apply (IH (S attempt) _ k); [lia|exact Hr|lia].
Qed.

(** [j] consecutive [slow_down] answers starting at attempt [k] put attempt
    [k + j] exactly [j * (2 * interval)] after attempt [k]. *)
Lemma poll_loop_slow_down_streak remaining now a j k :
  (k < length (posts (poll_loop interval server remaining 0 now a)))%nat ->
  (k + j < remaining)%nat ->
  (forall i, (i < j)%nat -> error_reply (server (k + i)%nat) "slow_down") ->
  exists t,
    posts (poll_loop interval server remaining 0 now a) !! k = Some t /\
    posts (poll_loop interval server remaining 0 now a) !! (k + j)%nat
    = Some (t + Z.of_nat j * (2 * interval)).
Proof.
  intros Hk. induction j as [|j IH]; intros Hlt Hslow.
  - destruct (lookup_lt_is_Some_2 _ _ Hk) as [t Ht].
    exists t. rewrite Nat.add_0_r. split; [exact Ht|]. rewrite Ht. f_equal. lia.
  - destruct IH as (t & Ht & Hj); [lia|intros i Hi; apply Hslow; lia|].
    exists t. split; [exact Ht|].
    destruct (poll_loop_next_post remaining 0 now a (k + j) true)
      as (t' & Ht' & Hnext).
    + apply lookup_lt_Some in Hj. exact Hj.
    + apply handle_reply_slow_down. simpl. apply Hslow. lia.
    + lia.
    + rewrite Hj in Ht'. injection Ht' as <-.
      replace (k + S j)%nat with (S (k + j)) by lia.
      rewrite Hnext. f_equal. lia.
Qed.

End PollTiming.

Section SlowDown.

Variables (tw : Twitch) (device_code : string) (interval : Z).
Variable server : nat -> http_reply.

(** C3.  An attempt answered by HTTP 400 with [slow_down] leaves the loop
    body through [continue] (never through [return] or [break]); while the
    budget lasts the next attempt follows after twice [interval], strictly
    more than the single [interval] that follows an [authorization_pending]
    answer; and the extra waits add up: after [j] consecutive [slow_down]
    answers the attempt is [j * (2 * interval)] later, [j * interval] more
    than after [j] ordinary ones. *)
Theorem slow_down_waits_longer (r : poll_run) :
  0 < interval ->
  poll_device_auth tw device_code interval server = Ok r ->
  forall k, (k < length (posts r))%nat ->
    (error_reply (server k) "authorization_pending" ->
     (S k < max_attempts interval)%nat ->
     exists t, posts r !! k = Some t /\ posts r !! S k = Some (t + interval)) /\
    (error_reply (server k) "slow_down" ->
     handle_reply (server k) = Continue true /\
     ((S k < max_attempts interval)%nat ->
      exists t t', posts r !! k = Some t /\ posts r !! S k = Some t' /\
                   t' = t + 2 * interval /\ t + interval < t')) /\
    (forall j, (k + j < max_attempts interval)%nat ->
       (forall i, (i < j)%nat -> error_reply (server (k + i)%nat) "slow_down") ->
       exists t, posts r !! k = Some t /\
                 posts r !! (k + j)%nat
                 = Some (t + Z.of_nat j * interval + Z.of_nat j * interval)).
Proof.
  intros Hpos Hrun k Hk. unfold poll_device_auth in Hrun.
  destruct (Z.eqb_spec interval 0) as [->|_]; [lia|].
  injection Hrun as <-. split; [|split].
  - intros Hpending Hlt.
    destruct (poll_loop_next_post interval server (max_attempts interval) 0 0
                (auth tw) k false Hk) as (t & Ht & Hnext).
    + apply handle_reply_pending. exact Hpending.
    + exact Hlt.
    + exists t. split; [exact Ht|]. rewrite Hnext. f_equal. lia.
  - intros Hslow. split; [apply handle_reply_slow_down; exact Hslow|].
    intros Hlt.
    destruct (poll_loop_next_post interval server (max_attempts interval) 0 0
                (auth tw) k true Hk) as (t & Ht & Hnext).
    + apply handle_reply_slow_down. exact Hslow.
    + exact Hlt.
    + exists t, (t + interval + interval).
      split; [exact Ht|]. split; [exact Hnext|]. lia.
  - intros j Hlt Hstreak.
    destruct (poll_loop_slow_down_streak interval server
                (max_attempts interval) 0 (auth tw) j k Hk Hlt Hstreak)
      as (t & Ht & Hj).
    exists t. split; [exact Ht|]. rewrite Hj. f_equal. lia.
Qed.

End SlowDown.

(** C1.  On the first reply HTTP 200 with an [access_token], a fresh client
    polled every 5 seconds returns the token and stores it in
    [auth.access_token], but [_logged_in] stays clear, so [is_logged_in] is
    still false. *)
Theorem poll_success_leaves_flag_clear :
  exists r,
    poll_device_auth (Twitch_init web_client) "device-code" 5 approves_at_once
    = Ok r /\
    outcome r = Authenticated (PStr "tok") /\
    getattr (auth_after r) "access_token" = Ok (PStr "tok") /\
    _logged_in (auth_after r) = false /\
    is_logged_in (auth_after r) = Ok false.
Proof.
  eexists. split; [reflexivity|]. repeat split; reflexivity.
Qed.

Lemma poll_device_auth_terminal_states_witness :
  0 < 5 /\
  exists r,
    poll_device_auth (Twitch_init web_client) "device-code" 5 approves_at_once
    = Ok r /\
    (length (posts r) <= 60)%nat.
Proof.
  split; [lia|].
  destruct (poll_device_auth_terminal_states (Twitch_init web_client)
              "device-code" 5 approves_at_once) as (r & Hr & Hlen & _).
  - lia.
  - exists r. split; [exact Hr|exact Hlen].
Defined.

Lemma slow_down_waits_longer_witness :
  exists t t',
    posts (poll_loop 5 always_slow_down (max_attempts 5) 0 0 AuthManager_init)
      !! 0%nat = Some t /\
    posts (poll_loop 5 always_slow_down (max_attempts 5) 0 0 AuthManager_init)
      !! 1%nat = Some t' /\
    t' = t + 2 * 5 /\ t + 5 < t'.
Proof.
  destruct (slow_down_waits_longer (Twitch_init web_client) "device-code" 5
              always_slow_down
              (poll_loop 5 always_slow_down (max_attempts 5) 0 0 AuthManager_init))
    with (k := 0%nat) as (_ & Hslow & _).
  - lia.
  - reflexivity.
  - vm_compute. lia.
  - destruct Hslow as [_ Hnext].
    + eexists. split; reflexivity.
    + apply Hnext. vm_compute. lia.
Defined.

(** ** The GraphQL transport *)

Section GqlRequest.

Variable tw : Twitch.
Variable operations : list pyval.
Variable net : gql_post -> http_reply.

(** C4.  When [is_logged_in] is false the call raises the not-logged-in
    [GQLException] without posting anything.  When it returns, exactly one
    post was made, answered by HTTP 200; its body was the operation itself
    for a single operation and the list of operations otherwise; and the
    value returned is a list: the decoded answer when that is a list, and
    the one-element list holding it otherwise. *)
Theorem gql_request_contract :
  (is_logged_in (auth tw) = Ok false ->
   gql_request tw operations net = (Raise (GQLException NotLoggedIn), [])) /\
  (forall results sent,
     gql_request tw operations net = (Ok results, sent) ->
     exists p json_data,
       sent = [p] /\
       net p = Reply 200 (Some json_data) /\
       post_json p = match operations with
                     | [op] => op
                     | _ => PList operations
                     end /\
       results = match json_data with
                 | PList l => l
                 | _ => [json_data]
                 end).
Proof.
  unfold gql_request. split.
  - intros ->. reflexivity.
  - intros results sent.
    destruct (is_logged_in (auth tw)) as [[|]|e]; try discriminate.
    destruct (getattr (auth tw) "access_token") as [token|e]; [|discriminate].
    destruct (getattr (auth tw) "device_id") as [device_id|e]; [|discriminate].
    match goal with
    | |- context [net ?q] => set (p := q); destruct (net p) as [status body|] eqn:E
    end; [|discriminate].
    destruct (Z.eqb_spec status 200) as [->|Hne]; simpl; [|discriminate].
    destruct body as [json_data|]; [|discriminate].
    intros Hres. exists p, json_data.
    assert (results = match json_data with PList l => l | _ => [json_data] end
            /\ sent = [p]) as [-> ->]
      by (destruct json_data; injection Hres as <- <-; split; reflexivity).
    split; [reflexivity|]. split; [exact E|]. split; reflexivity.
Qed.

End GqlRequest.

Section Logout.

Variable tw : Twitch.
Variable a : AuthManager.
Variable kwargs_headers : option headers.

(** C10, as the code has it.  After [clear()] the five credential attributes
    are gone from the instance (not set to [None]), so reading any of them,
    and with it the token injection of [request()], raises [AttributeError];
    [is_logged_in], however, answers [False] without raising, because
    [clear()] also clears [_logged_in] and [and] then skips the read of
    [access_token]. *)
Theorem clear_deletes_credentials :
  Forall (fun attr =>
            hasattr (clear a) attr = false /\
            getattr (clear a) attr = Raise (AttributeError attr))
         credential_attrs /\
  request (with_auth tw (clear a)) kwargs_headers
  = Raise (AttributeError "access_token") /\
  is_logged_in (clear a) = Ok false.
Proof.
  split; [|split].
  - apply Forall_forall. intros attr Hin.
    pose proof (clear_lookup a attr Hin) as Hnone.
    unfold hasattr, getattr. rewrite Hnone. split; [|reflexivity].
    apply bool_decide_eq_false_2. intros [? ?]. discriminate.
  - unfold request, getattr.
    change (auth (with_auth tw (clear a))) with (clear a).
    rewrite (clear_lookup a "access_token"); [reflexivity|].
    unfold credential_attrs. do 3 apply list_elem_of_further.
    apply list_elem_of_here.
  - reflexivity.
Qed.

End Logout.

Lemma gql_request_contract_witness :
  gql_request (Twitch_init web_client) [playback_operation] answers_object
  = (Raise (GQLException NotLoggedIn), []) /\
  exists p json_data,
    answers_object p = Reply 200 (Some json_data) /\
    post_json p = playback_operation /\
    fst (gql_request signed_in_client [playback_operation] answers_object)
    = Ok [json_data].
Proof.
  split.
  - apply (proj1 (gql_request_contract (Twitch_init web_client)
                    [playback_operation] answers_object)).
    reflexivity.
  - destruct (proj2 (gql_request_contract signed_in_client
                       [playback_operation] answers_object)
                [PDict [("data", PDict [])]]
                (snd (gql_request signed_in_client [playback_operation]
                        answers_object)))
      as (p & json_data & Hsent & Hnet & Hjson & Hres).
    + reflexivity.
    + exists p, json_data. split; [exact Hnet|]. split; [exact Hjson|].
      unfold answers_object in Hnet. injection Hnet as <-. reflexivity.
Defined.

(** C10 as claimed fails: after a logout of a session that held a token,
    [is_logged_in] returns [False]; it does not raise [AttributeError]. *)
Lemma is_logged_in_after_clear_returns_false :
  is_logged_in (clear (setattr AuthManager_init "access_token" (PStr "tok")))
  = Ok false /\
  is_logged_in (clear (setattr AuthManager_init "access_token" (PStr "tok")))
  <> Raise (AttributeError "access_token").
Proof. split; [reflexivity|discriminate]. Qed.

(** ** Log retention *)

Import Storage.

Section LogRetention.

Lemma last_elements_drop {A} (n : nat) (l : list A) :
  last_elements n l = drop (length l - n)%nat l.
Proof.
  unfold last_elements. rewrite firstn_rev, rev_involutive. reflexivity.
Qed.

(** C9.  After [add_log] the stored list is the last 1000 elements, in
    order, of the previous list followed by the new entry, so it never holds
    more than 1000 entries. *)
Theorem add_log_keeps_last_1000 (entry : LogEntry) (st : Storage) :
  logs_file (add_log entry st) = last_elements 1000 (logs_file st ++ [entry]) /\
  (length (logs_file (add_log entry st)) <= 1000)%nat.
Proof.
  unfold add_log. simpl. rewrite last_elements_drop. unfold slice_last.
  destruct (Nat.ltb_spec 1000 (length (logs_file st ++ [entry]))) as [Hgt|Hle].
  - split; [reflexivity|]. rewrite length_drop. lia.
  - replace (length (logs_file st ++ [entry]) - 1000)%nat with 0%nat by lia.
    split; [reflexivity|exact Hle].
Qed.

End LogRetention.

(** ** The orchestrator: what each operation leaves alone *)

Import Miner.

Section Frames.

Context (emit_raises : client -> message -> option string).

Local Abbreviation _log := (Miner._log emit_raises).
Local Abbreviation _update_status := (Miner._update_status emit_raises).
Local Abbreviation _broadcast_log_update := (Miner._broadcast_log_update emit_raises).
Local Abbreviation _broadcast_status_update :=
  (Miner._broadcast_status_update emit_raises).

Lemma log_loop_frame (msg : message) (l : list client) (m : Miner) :
  let m' := foldl (fun m c => match emit_raises c msg with
                              | None => delivered c msg m
                              | Some _ => remove_ws_client c m
                              end) m l in
  control m' = control m /\ storage m' = storage m.
Proof.
  revert m. induction l as [|c l IH]; intros m; simpl; [split; reflexivity|].
  destruct (emit_raises c msg).
  - apply (IH (remove_ws_client c m)).
  - apply (IH (delivered c msg m)).
Qed.

Lemma broadcast_log_frame entry m :
  control (_broadcast_log_update entry m) = control m /\
  storage (_broadcast_log_update entry m) = storage m.
Proof.
  unfold Miner._broadcast_log_update.
  destruct (decide (ws_clients m = ∅)); [split; reflexivity|].
  apply log_loop_frame.
Qed.

Lemma log_control now level msg game_id stream_id m :
  control (_log now level msg game_id stream_id m) = control m.
Proof. unfold Miner._log. rewrite (proj1 (broadcast_log_frame _ _)). reflexivity. Qed.

Lemma log_status_writes now level msg game_id stream_id m :
  status_writes (storage (_log now level msg game_id stream_id m))
  = status_writes (storage m).
Proof. unfold Miner._log. rewrite (proj2 (broadcast_log_frame _ _)). reflexivity. Qed.

Lemma status_loop_frame now (msg : message) (l : list client) (m : Miner) :
  let m' := foldl (fun m c =>
                     match emit_raises c msg with
                     | None => delivered c msg m
                     | Some e =>
                         remove_ws_client c
                           (_log now "WARNING"
                              ("Failed to send status update to client: " +:+ e)
                              "" "" m)
                     end) m l in
  control m' = control m /\
  status_writes (storage m') = status_writes (storage m).
Proof.
  revert m. induction l as [|c l IH]; intros m; simpl; [split; reflexivity|].
  destruct (emit_raises c msg) as [e|].
  - destruct (IH (remove_ws_client c
                    (_log now "WARNING"
                       ("Failed to send status update to client: " +:+ e)
                       "" "" m))) as [Hc Hs].
    split.
    + rewrite Hc. apply (log_control now "WARNING" _ "" "" m).
    + rewrite Hs. apply (log_status_writes now "WARNING" _ "" "" m).
  - apply (IH (delivered c msg m)).
Qed.

Lemma broadcast_status_frame now status m :
  control (_broadcast_status_update now status m) = control m /\
  status_writes (storage (_broadcast_status_update now status m))
  = status_writes (storage m).
Proof.
  unfold Miner._broadcast_status_update.
  destruct (decide (ws_clients m = ∅)); [split; reflexivity|].
  apply status_loop_frame.
Qed.

Lemma update_status_control now m : control (_update_status now m) = control m.
Proof.
  unfold Miner._update_status.
  rewrite (proj1 (broadcast_status_frame _ _ _)). reflexivity.
Qed.

(** Every call of [_update_status] writes exactly one snapshot, that of the
    instance as it is. *)
Lemma update_status_writes now m :
  status_writes (storage (_update_status now m))
  = status_writes (storage m) ++ [snapshot now m].
Proof.
  unfold Miner._update_status.
  rewrite (proj2 (broadcast_status_frame _ _ _)). reflexivity.
Qed.

Local Abbreviation _watch_stream := (Miner._watch_stream emit_raises).
Local Abbreviation _find_and_watch_stream :=
  (Miner._find_and_watch_stream emit_raises).
Local Abbreviation _switch_to_game := (Miner._switch_to_game emit_raises).
Local Abbreviation _continue_watching := (Miner._continue_watching emit_raises).
Local Abbreviation _process_next_game := (Miner._process_next_game emit_raises).
Local Abbreviation loop_body := (Miner.loop_body emit_raises).
Local Abbreviation after_switch := (Miner.after_switch emit_raises).

Lemma control_standing m m' : control m' = control m -> standing m' = standing m.
Proof. unfold control, standing. intros [= -> -> _ _ ->]. reflexivity. Qed.

Lemma log_standing now level msg game_id stream_id m :
  standing (_log now level msg game_id stream_id m) = standing m.
Proof. apply control_standing, log_control. Qed.

Lemma update_status_standing now m : standing (_update_status now m) = standing m.
Proof. apply control_standing, update_status_control. Qed.

Lemma watch_stream_control env stream m :
  control (_watch_stream env stream m) =
  match stream_access_token env with
  | Ok _ => control m
  | Raise _ => (is_running m, current_game m, None, None, _stop_event m)
  end.
Proof.
  unfold Miner._watch_stream. destruct (stream_access_token env) as [tok|e].
  - unfold _check_drop_progress. rewrite update_status_control.
    apply log_control.
  - match goal with
    | |- control (with_target _ None None ?x) = _ =>
        pose proof (log_control (now env) "ERROR"
          ("Failed to watch stream " +:+ Stream_user_name stream +:+ ": "
           +:+ exn_text e) (game_id_or_empty m) (Stream_id stream) m) as H
    end.
    unfold control in *. injection H as H1 H2 H3 H4 H5.
    simpl. rewrite H1, H2, H5. reflexivity.
Qed.

Lemma watch_stream_standing env stream m :
  standing (_watch_stream env stream m) = standing m.
Proof.
  pose proof (watch_stream_control env stream m) as H.
  destruct (stream_access_token env).
  - apply control_standing. exact H.
  - unfold control, standing in *. injection H as -> -> _ _ ->. reflexivity.
Qed.

Lemma find_and_watch_standing env game m :
  standing (_find_and_watch_stream env game m) = standing m.
Proof.
  unfold Miner._find_and_watch_stream.
  destruct (streams_for_game env) as [[|first others]|e].
  - apply log_standing.
  - rewrite watch_stream_standing, log_standing. reflexivity.
  - apply log_standing.
Qed.

Lemma continue_watching_standing env m :
  standing (_continue_watching env m) = standing m.
Proof.
  unfold Miner._continue_watching. destruct (current_stream m); [|reflexivity].
  apply watch_stream_standing.
Qed.

Lemma switch_to_game_control now game m :
  control (_switch_to_game now game m)
  = (is_running m, Some game, None, None, _stop_event m).
Proof.
  unfold Miner._switch_to_game.
  rewrite update_status_control, log_control. reflexivity.
Qed.

Lemma after_switch_game now next_game m :
  exists current,
    current_game (after_switch now next_game m) = Some current /\
    Game_id current = Game_id next_game.
Proof.
  unfold after_switch.
  pose proof (switch_to_game_control now next_game m) as Hsw.
  unfold control in Hsw. injection Hsw as _ Hgame _ _ _.
  destruct (current_game m) as [g|] eqn:Hg.
  - destruct (String.eqb_spec (Game_id g) (Game_id next_game)) as [Heq|_].
    + exists g. split; [exact Hg|exact Heq].
    + exists next_game. split; [exact Hgame|reflexivity].
  - exists next_game. split; [exact Hgame|reflexivity].
Qed.

Lemma after_switch_flags now next_game m :
  is_running (after_switch now next_game m) = is_running m /\
  _stop_event (after_switch now next_game m) = _stop_event m.
Proof.
  unfold after_switch.
  pose proof (switch_to_game_control now next_game m) as Hsw.
  unfold control in Hsw. injection Hsw as Hrun _ _ _ Hstop.
  destruct (current_game m) as [g|];
    [destruct (String.eqb (Game_id g) (Game_id next_game))|]; auto.
Qed.

(** A pass that finds the session logged in and a game to watch. *)
Lemma process_next_game_selected env m next_game :
  is_logged_in (twitch_auth env) = Ok true ->
  select_next_game (settings_games (storage m)) (get_games (storage m))
  = Some next_game ->
  _process_next_game env m =
  Ok (let m0 := after_switch (now env) next_game m in
      match current_stream m0 with
      | Some stream =>
          if _is_stream_live env stream m0 then _continue_watching env m0
          else _find_and_watch_stream env next_game m0
      | None => _find_and_watch_stream env next_game m0
      end).
Proof.
  intros Hlogin Hsel. unfold Miner._process_next_game. rewrite Hlogin.
  cbn [bind negb].
  destruct (settings_games (storage m)) as [|game_id rest]; [discriminate|].
  rewrite Hsel. fold (after_switch (now env) next_game m).
  destruct (current_stream (after_switch (now env) next_game m)) as [stream|];
    [|reflexivity].
  destruct (_is_stream_live env stream _); reflexivity.
Qed.

(** No pass of the loop changes [is_running] or the stop event. *)
Lemma process_next_game_flags env m m' :
  _process_next_game env m = Ok m' ->
  is_running m' = is_running m /\ _stop_event m' = _stop_event m.
Proof.
  assert (Hflags : forall x y : Miner, standing x = standing y ->
            is_running x = is_running y /\ _stop_event x = _stop_event y).
  { unfold standing. intros x y [= -> _ ->]. auto. }
  unfold Miner._process_next_game.
  destruct (is_logged_in (twitch_auth env)) as [[|]|e]; cbn [bind negb];
    [| |discriminate].
  - destruct (settings_games (storage m)) as [|game_id rest].
    { intros [= <-]. apply Hflags, log_standing. }
    destruct (select_next_game (game_id :: rest) (get_games (storage m)))
      as [next_game|].
    + fold (after_switch (now env) next_game m).
      destruct (after_switch_flags (now env) next_game m) as [Hrun Hstop].
      rewrite <- Hrun, <- Hstop.
      destruct (current_stream (after_switch (now env) next_game m)) as [stream|];
        [destruct (_is_stream_live env stream _)|];
        intros [= <-]; apply Hflags;
        first [apply continue_watching_standing | apply find_and_watch_standing].
    + intros [= <-]. apply Hflags, log_standing.
  - intros [= <-]. apply Hflags, log_standing.
Qed.

Lemma loop_body_flags env m :
  is_running (loop_body env m) = is_running m /\
  _stop_event (loop_body env m) = _stop_event m.
Proof.
  unfold Miner.loop_body.
  destruct (_process_next_game env m) as [m'|e] eqn:E.
  - apply (process_next_game_flags env m m' E).
  - pose proof (log_standing (now env) "ERROR"
                  ("Mining loop iteration error: " +:+ exn_text e) "" "" m) as H.
    unfold standing in H. injection H as -> _ ->. auto.
Qed.

End Frames.

(** ** Choice of the game *)

Section GameSelection.

Context (emit_raises : client -> message -> option string).

Lemma select_next_game_Some watch_list (games : gmap string Game) game :
  select_next_game watch_list games = Some game <->
  exists before game_id after,
    watch_list = before ++ game_id :: after /\
    Forall (fun x => games !! x = None) before /\
    games !! game_id = Some game.
Proof.
  induction watch_list as [|x rest IH]; simpl.
  - split; [discriminate|].
    intros (before & game_id & after & Heq & _). destruct before; discriminate.
  - destruct (games !! x) as [g|] eqn:Hx.
    + split.
      * intros [= ->]. exists [], x, rest. auto.
      * intros ([|y before] & game_id & after & Heq & Hnone & Hin).
        -- injection Heq as -> _. congruence.
        -- injection Heq as -> _. apply Forall_cons in Hnone as [Hy _]. congruence.
    + rewrite IH. split.
      * intros (before & game_id & after & -> & Hnone & Hin).
        exists (x :: before), game_id, after. auto.
      * intros ([|y before] & game_id & after & Heq & Hnone & Hin).
        -- injection Heq as -> _. congruence.
        -- injection Heq as _ ->. apply Forall_cons in Hnone as [_ Hrest].
           exists before, game_id, after. auto.
Qed.

(** C5.  The game chosen is the entry of the catalog under the first id of
    the watch list that the catalog knows, whatever comes after it in the
    list; with watch list gameA, gameB and only gameB in the catalog it is
    gameB; and a pass of the loop that finds the session logged in leaves
    the instance with that game as its current game. *)
Theorem first_known_game_is_selected
  (watch_list : list string) (games : gmap string Game) :
  (forall game,
     select_next_game watch_list games = Some game <->
     exists before game_id after,
       watch_list = before ++ game_id :: after /\
       Forall (fun x => games !! x = None) before /\
       games !! game_id = Some game) /\
  (forall gameB : Game,
     select_next_game ["gameA"; "gameB"] {["gameB" := gameB]} = Some gameB) /\
  (forall env m game,
     is_logged_in (twitch_auth env) = Ok true ->
     settings_games (storage m) = watch_list ->
     get_games (storage m) = games ->
     select_next_game watch_list games = Some game ->
     exists m' current,
       _process_next_game emit_raises env m = Ok m' /\
       current_game m' = Some current /\
       Game_id current = Game_id game).
Proof.
  split; [|split].
  - intros game. apply select_next_game_Some.
  - intros gameB. simpl.
    rewrite lookup_singleton_ne by discriminate.
    rewrite lookup_singleton_eq. reflexivity.
  - intros env m game Hlogin <- <- Hsel.
    rewrite (process_next_game_selected emit_raises env m game Hlogin Hsel).
    destruct (after_switch_game emit_raises (now env) game m)
      as (current & Hcur & Hid).
    eexists. exists current. split; [reflexivity|]. split; [|exact Hid].
    cbv zeta. rewrite <- Hcur.
    assert (Hgame : forall x y : Miner, standing x = standing y ->
              current_game x = current_game y).
    { unfold standing. intros x y [= _ -> _]. reflexivity. }
    destruct (current_stream (after_switch emit_raises (now env) game m))
      as [stream|];
      [destruct (_is_stream_live env stream _)|]; apply Hgame;
      first [apply continue_watching_standing | apply find_and_watch_standing].
Qed.

End GameSelection.

(** ** Fan-out to subscribers *)

Section Broadcast.

Context (emit_raises : client -> message -> option string).

Local Abbreviation _log := (Miner._log emit_raises).
Local Abbreviation _broadcast_log_update := (Miner._broadcast_log_update emit_raises).
Local Abbreviation _broadcast_status_update :=
  (Miner._broadcast_status_update emit_raises).

(** The loop of [_broadcast_log_update] over a snapshot [l]: the clients of
    [l] whose [emit] raises leave the set, the others are served in order. *)
Lemma log_loop_result (msg : message) (l : list client) (m : Miner) :
  let m' := foldl (fun m c => match emit_raises c msg with
                              | None => delivered c msg m
                              | Some _ => remove_ws_client c m
                              end) m l in
  ws_clients m' =
    ws_clients m ∖ list_to_set (filter (fun c => emit_raises c msg <> None) l) /\
  emitted m' =
    emitted m ++ ((fun c => (c, msg)) <$> filter (fun c => emit_raises c msg = None) l).
Proof.
  revert m. induction l as [|c l IH]; intros m; cbn [foldl].
  - rewrite !filter_nil, list_to_set_nil, difference_empty_L, app_nil_r.
    split; reflexivity.
  - destruct (emit_raises c msg) as [e|] eqn:E.
    + destruct (IH (remove_ws_client c m)) as [Hws Hem].
      rewrite filter_cons_True by congruence.
      rewrite filter_cons_False by congruence.
      split.
      * rewrite Hws, list_to_set_cons. simpl.
        apply set_eq. intros x.
        rewrite !elem_of_difference, elem_of_union. tauto.
      * rewrite Hem. reflexivity.
    + destruct (IH (delivered c msg m)) as [Hws Hem].
      rewrite filter_cons_False by congruence.
      rewrite filter_cons_True by congruence.
      split.
      * rewrite Hws. reflexivity.
      * rewrite Hem. simpl. rewrite <- app_assoc. reflexivity.
Qed.

Lemma broadcast_log_result entry m :
  ws_clients (_broadcast_log_update entry m) =
    ws_clients m ∖
    list_to_set (filter (fun c => emit_raises c (LogMessage entry) <> None)
                        (elements (ws_clients m))) /\
  emitted (_broadcast_log_update entry m) =
    emitted m ++
    ((fun c => (c, LogMessage entry)) <$>
     filter (fun c => emit_raises c (LogMessage entry) = None)
            (elements (ws_clients m))).
Proof.
  unfold Miner._broadcast_log_update.
  destruct (decide (ws_clients m = ∅)) as [Hempty|_].
  - rewrite Hempty, elements_empty, !filter_nil, list_to_set_nil.
    rewrite difference_empty_L, app_nil_r. split; reflexivity.
  - apply log_loop_result.
Qed.

Lemma status_deliveries_app sent sent' :
  status_deliveries (sent ++ sent') =
  status_deliveries sent ++ status_deliveries sent'.
Proof. apply List.filter_app. Qed.

Lemma status_deliveries_log entry (l : list client) :
  status_deliveries ((fun c => (c, LogMessage entry)) <$> l) = [].
Proof. induction l as [|c l IH]; [reflexivity|exact IH]. Qed.

Lemma status_deliveries_status data (l : list client) :
  status_deliveries ((fun c => (c, StatusMessage data)) <$> l)
  = (fun c => (c, StatusMessage data)) <$> l.
Proof.
  induction l as [|c l IH]; [reflexivity|].
  change (status_deliveries ((fun c => (c, StatusMessage data)) <$> c :: l))
    with ((c, StatusMessage data)
          :: status_deliveries ((fun c => (c, StatusMessage data)) <$> l)).
  rewrite IH. reflexivity.
Qed.

(** Writing a log entry sends no [status] message. *)
Lemma log_status_deliveries now level msg game_id stream_id m :
  status_deliveries (emitted (_log now level msg game_id stream_id m))
  = status_deliveries (emitted m).
Proof.
  unfold Miner._log.
  rewrite (proj2 (broadcast_log_result _ _)). simpl.
  rewrite status_deliveries_app, status_deliveries_log, app_nil_r.
  reflexivity.
Qed.

End Broadcast.

Section OneFailingSubscriber.

Context (emit_raises : client -> message -> option string).

Local Abbreviation _log := (Miner._log emit_raises).
Local Abbreviation _broadcast_log_update := (Miner._broadcast_log_update emit_raises).
Local Abbreviation _broadcast_status_update :=
  (Miner._broadcast_status_update emit_raises).

(** [c0] is the only client of [subscribers] whose [emit] can raise. *)
Variable c0 : client.
Variable subscribers : gset client.
Hypothesis others_deliver :
  forall c, c ∈ subscribers -> c <> c0 -> forall msg, emit_raises c msg = None.

Lemma log_keeps_others now level msg game_id stream_id m :
  ws_clients m ⊆ subscribers ->
  ws_clients (_log now level msg game_id stream_id m) ⊆ ws_clients m /\
  ws_clients m ∖ {[c0]} ⊆ ws_clients (_log now level msg game_id stream_id m).
Proof.
  intros Hsub. unfold Miner._log.
  rewrite (proj1 (broadcast_log_result _ _ _)). simpl. split.
  - intros x. rewrite elem_of_difference. tauto.
  - intros x. rewrite !elem_of_difference, elem_of_singleton.
    intros [Hx Hne]. split; [exact Hx|].
    rewrite elem_of_list_to_set, list_elem_of_filter, elem_of_elements.
    intros [Hfail _]. apply Hfail. apply others_deliver; [|exact Hne].
    apply Hsub. exact Hx.
Qed.

Lemma status_loop_result now data (l : list client) (m : Miner) :
  (forall c, c ∈ l -> c ∈ subscribers) ->
  ws_clients m ⊆ subscribers ->
  emit_raises c0 (StatusMessage data) <> None ->
  let m' := foldl (fun m c =>
                     match emit_raises c (StatusMessage data) with
                     | None => delivered c (StatusMessage data) m
                     | Some e =>
                         remove_ws_client c
                           (_log now "WARNING"
                              ("Failed to send status update to client: " +:+ e)
                              "" "" m)
                     end) m l in
  ws_clients m' ⊆ ws_clients m /\
  ws_clients m ∖ {[c0]} ⊆ ws_clients m' /\
  (c0 ∈ l -> c0 ∉ ws_clients m') /\
  status_deliveries (emitted m') =
    status_deliveries (emitted m) ++
    ((fun c => (c, StatusMessage data)) <$> filter (fun c => c <> c0) l).
Proof.
  intros Hl Hsub Hfail. revert m Hsub.
  induction l as [|c l IH]; intros m Hsub; cbn [foldl].
  - rewrite filter_nil, app_nil_r.
    repeat split; [reflexivity| |intros H; inversion H].
    intros x. rewrite elem_of_difference. tauto.
  - assert (Hl' : forall c, c ∈ l -> c ∈ subscribers)
      by (intros x Hx; apply Hl; right; exact Hx).
    destruct (decide (c = c0)) as [->|Hne].
    + destruct (emit_raises c0 (StatusMessage data)) as [e|]; [|congruence].
      set (m1 := _log now "WARNING"
                   ("Failed to send status update to client: " +:+ e) "" "" m).
      destruct (log_keeps_others now "WARNING"
                  ("Failed to send status update to client: " +:+ e) "" "" m Hsub)
        as [Hdown Hup]. fold m1 in Hdown, Hup.
      destruct (IH Hl' (remove_ws_client c0 m1)) as (HA & HB & HC & HD).
      { simpl. intros x. rewrite elem_of_difference. intros [Hx _].
        apply Hsub, Hdown, Hx. }
      simpl in HA, HB.
      rewrite filter_cons_False by (intros H; apply H; reflexivity).
      split; [|split; [|split]].
      * intros x Hx. apply HA in Hx. apply elem_of_difference in Hx as [Hx _].
        apply Hdown, Hx.
      * intros x Hx. apply HB. apply elem_of_difference in Hx as [Hx Hnx].
        rewrite !elem_of_difference. split; [split|]; [|exact Hnx..].
        apply Hup. rewrite elem_of_difference. split; [exact Hx|exact Hnx].
      * intros _ Hin. apply HA in Hin.
        apply elem_of_difference in Hin as [_ Hnx]. apply Hnx.
        apply elem_of_singleton. reflexivity.
      * rewrite HD. simpl. subst m1. rewrite log_status_deliveries.
        reflexivity.
    + rewrite (others_deliver c) by (first [apply Hl; left; reflexivity | exact Hne]).
      destruct (IH Hl' (delivered c (StatusMessage data) m) Hsub)
        as (HA & HB & HC & HD).
      rewrite filter_cons_True by exact Hne.
      split; [exact HA|]. split; [exact HB|]. split.
      * intros Hin. apply HC. apply elem_of_cons in Hin as [Heq|Hin];
          [congruence|exact Hin].
      * rewrite HD. simpl. rewrite status_deliveries_app.
        rewrite <- app_assoc. reflexivity.
Qed.

Lemma filter_others_absent (l : list client) :
  c0 ∉ l -> filter (fun c => c <> c0) l = l.
Proof.
  induction l as [|c l IH]; intros Hnotin; [reflexivity|].
  apply not_elem_of_cons in Hnotin as [Hne Hnotin].
  rewrite filter_cons_True by congruence. rewrite IH by exact Hnotin.
  reflexivity.
Qed.

Lemma length_filter_others (l : list client) :
  NoDup l -> c0 ∈ l ->
  length (filter (fun c => c <> c0) l) = (length l - 1)%nat.
Proof.
  induction l as [|c l IH]; intros Hnd Hin; [inversion Hin|].
  apply NoDup_cons in Hnd as [Hnotin Hnd].
  destruct (decide (c = c0)) as [->|Hne].
  - rewrite filter_cons_False by (intros H; apply H; reflexivity).
    simpl. rewrite Nat.sub_0_r. rewrite filter_others_absent by exact Hnotin.
    reflexivity.
  - rewrite filter_cons_True by exact Hne. simpl.
    apply elem_of_cons in Hin as [Heq|Hin]; [congruence|].
    rewrite IH by assumption.
    destruct l; [inversion Hin|simpl; lia].
Qed.

End OneFailingSubscriber.

Section Publish.

Context (emit_raises : client -> message -> option string).

Lemma filter_agree_on_members {A} (P Q : A -> Prop)
  `{forall x, Decision (P x)} `{forall x, Decision (Q x)} (l : list A) :
  (forall x, x ∈ l -> (P x <-> Q x)) -> filter P l = filter Q l.
Proof.
  induction l as [|x l IH]; intros Hiff; [reflexivity|].
  assert (Hrest : filter P l = filter Q l)
    by (apply IH; intros y Hy; apply Hiff; right; exact Hy).
  assert (Hx : P x <-> Q x) by (apply Hiff; left; reflexivity).
  destruct (decide (P x)) as [HP|HnP].
  - rewrite (filter_cons_True P) by exact HP.
    rewrite (filter_cons_True Q) by (apply Hx; exact HP).
    rewrite Hrest. reflexivity.
  - rewrite (filter_cons_False P) by exact HnP.
    rewrite (filter_cons_False Q) by (intros HQ; apply HnP, Hx; exact HQ).
    exact Hrest.
Qed.

(** C7.  Among the registered subscribers let [c0] be the only one whose
    delivery throws.  Publishing a status or a log event then delivers it
    to each of the other N-1 subscribers, once and in the order of the
    snapshot taken of the set, and leaves the set without [c0] and with
    every other subscriber still in it. *)
Theorem publish_isolates_failing_subscriber (m : Miner) (c0 : client) :
  c0 ∈ ws_clients m ->
  (forall c, c ∈ ws_clients m -> c <> c0 -> forall msg, emit_raises c msg = None) ->
  let others := filter (fun c => c <> c0) (elements (ws_clients m)) in
  length others = (size (ws_clients m) - 1)%nat /\
  (forall now status,
     emit_raises c0 (status_message status) <> None ->
     let m' := _broadcast_status_update emit_raises now status m in
     ws_clients m' = ws_clients m ∖ {[c0]} /\
     status_deliveries (emitted m') =
       status_deliveries (emitted m) ++
       ((fun c => (c, status_message status)) <$> others)) /\
  (forall entry,
     emit_raises c0 (LogMessage entry) <> None ->
     let m' := _broadcast_log_update emit_raises entry m in
     ws_clients m' = ws_clients m ∖ {[c0]} /\
     emitted m' = emitted m ++ ((fun c => (c, LogMessage entry)) <$> others)).
Proof.
  intros Hin Hothers others. split; [|split].
  - subst others. rewrite (length_filter_others c0).
    + reflexivity.
    + apply NoDup_elements.
    + apply elem_of_elements. exact Hin.
  - intros now status Hfail m'. subst m'.
    unfold _broadcast_status_update.
    destruct (decide (ws_clients m = ∅)) as [Hempty|_].
    { rewrite Hempty in Hin. apply not_elem_of_empty in Hin. contradiction. }
    unfold status_message in *.
    match goal with
    | H : emit_raises c0 (StatusMessage ?d) <> None |- _ => set (data := d) in *
    end.
    destruct (status_loop_result emit_raises c0 (ws_clients m) Hothers now data
                (elements (ws_clients m)) m) as (HA & HB & HC & HD).
    + intros c Hc. apply elem_of_elements. exact Hc.
    + reflexivity.
    + exact Hfail.
    + split; [|exact HD].
      apply set_eq. intros x. split.
      * intros Hx. apply elem_of_difference. split; [apply HA; exact Hx|].
        intros Hx0. apply elem_of_singleton in Hx0 as ->.
        apply HC; [apply elem_of_elements; exact Hin|exact Hx].
      * apply HB.
  - intros entry Hfail m'. subst m'.
    destruct (broadcast_log_result emit_raises entry m) as [Hws Hem].
    split.
    + rewrite Hws. f_equal. apply set_eq. intros x.
      rewrite elem_of_list_to_set, list_elem_of_filter, elem_of_elements,
        elem_of_singleton.
      split.
      * intros [Hraise Hx]. destruct (decide (x = c0)) as [->|Hne];
          [reflexivity|].
        exfalso. apply Hraise. apply Hothers; assumption.
      * intros ->. split; assumption.
    + rewrite Hem. do 2 f_equal. apply filter_agree_on_members.
      intros x Hx. apply elem_of_elements in Hx. split.
      * intros Hnone ->. contradiction.
      * intros Hne. apply Hothers; assumption.
Qed.

End Publish.

(** ** Start, stop and the passes of the loop *)

Section Lifecycle.

Context (emit_raises : client -> message -> option string).

Local Abbreviation start := (Miner.start emit_raises).
Local Abbreviation stop := (Miner.stop emit_raises).
Local Abbreviation loop_body := (Miner.loop_body emit_raises).
Local Abbreviation finish_all := (Miner.finish_all emit_raises).
Local Abbreviation step := (Miner.step emit_raises).
Local Abbreviation run := (Miner.run emit_raises).
Local Abbreviation all_join_in_time := (Miner.all_join_in_time emit_raises).
Local Abbreviation _watch_stream := (Miner._watch_stream emit_raises).
Local Abbreviation _update_status := (Miner._update_status emit_raises).

Lemma finish_all_flags envs m :
  is_running (finish_all envs m) = is_running m /\
  _stop_event (finish_all envs m) = _stop_event m.
Proof.
  unfold Miner.finish_all. revert m.
  induction envs as [|env envs IH]; intros m; simpl; [auto|].
  destruct (IH (loop_body env m)) as [-> ->]. apply loop_body_flags.
Qed.

Lemma start_when_idle now m :
  is_running m = false ->
  control (start now m)
  = (true, current_game m, current_stream m, watch_start_time m, false).
Proof.
  intros Hidle. unfold Miner.start. rewrite Hidle.
  rewrite update_status_control, log_control. reflexivity.
Qed.

Lemma stop_when_running now join m :
  is_running m = true ->
  control (stop now join m)
  = (is_running (join (with_control false true m)), None, None, None,
     _stop_event (join (with_control false true m))).
Proof.
  intros Hrun. unfold Miner.stop. rewrite Hrun. simpl.
  rewrite update_status_control, log_control. reflexivity.
Qed.

Lemma step_settled sys ev :
  settled sys -> joins_in_time sys ev = true -> settled (step sys ev).
Proof.
  unfold settled. intros Hinv Hjoin.
  destruct (is_running (miner sys)) eqn:Hrun.
  - (* running *)
    destruct ev as [now|now during_join| |env]; simpl.
    + unfold Miner.start. rewrite Hrun. congruence.
    + pose proof (stop_when_running now
                    (finish_all (take (in_flight sys) during_join))
                    (miner sys) Hrun) as Hc.
      unfold control in Hc. injection Hc as _ _ Hs _ _.
      intros _. split; [exact Hs|].
      simpl in Hjoin. apply bool_decide_eq_true_1 in Hjoin.
      rewrite Hrun, length_take. lia.
    + destruct (loop_guard (miner sys)); simpl; congruence.
    + destruct (in_flight sys) as [|k]; simpl; [congruence|].
      destruct (loop_body_flags emit_raises env (miner sys)) as [-> _].
      congruence.
  - (* idle *)
    destruct (Hinv eq_refl) as [Hstream Hzero].
    destruct ev as [now|now during_join| |env]; simpl.
    + pose proof (start_when_idle now (miner sys) Hrun) as Hc.
      unfold control in Hc. injection Hc as Hr _ _ _ _. congruence.
    + unfold Miner.stop. rewrite Hrun. simpl. auto.
    + unfold loop_guard. rewrite Hrun. simpl. auto.
    + rewrite Hzero. auto.
Qed.

Lemma run_settled evs sys :
  settled sys -> all_join_in_time sys evs = true -> settled (run sys evs).
Proof.
  unfold Miner.run. revert sys.
  induction evs as [|ev evs IH]; intros sys Hinv Hjoin; simpl; [exact Hinv|].
  simpl in Hjoin. apply andb_true_iff in Hjoin as [Hev Hrest].
  apply IH; [apply step_settled; assumption|exact Hrest].
Qed.

End Lifecycle.

Section WatchFailure.

Context (emit_raises : client -> message -> option string).

Local Abbreviation _watch_stream := (Miner._watch_stream emit_raises).
Local Abbreviation _update_status := (Miner._update_status emit_raises).

(** The [except] branch of [_watch_stream]: current stream and watch start
    time are cleared, and the branch ends without the call of
    [_update_status] that the [try] branch makes, so the status file keeps
    its last snapshot. *)
Lemma failed_watch_clears_stream (env : tick) (stream : Stream) (m : Miner)
  (e : exn) :
  stream_access_token env = Raise e ->
  let m' := _watch_stream env stream m in
  current_stream m' = None /\
  watch_start_time m' = None /\
  status_writes (storage m') = status_writes (storage m) /\
  forall now,
    status_current_stream (snapshot now m') = None /\
    status_writes (storage (_update_status now m'))
    = status_writes (storage m') ++ [snapshot now m'].
Proof.
  intros Hfail m'.
  pose proof (watch_stream_control emit_raises env stream m) as Hc.
  fold m' in Hc. rewrite Hfail in Hc. unfold control in Hc.
  injection Hc as _ _ Hstream Hstart _.
  assert (Hwrites : status_writes (storage m') = status_writes (storage m)).
  { subst m'. unfold Miner._watch_stream. rewrite Hfail. simpl.
    apply log_status_writes. }
  repeat split; try assumption.
  apply update_status_writes.
Qed.

End WatchFailure.

(** C6.  The code at a failed watch request.  The orchestrator is watching
    Alice's stream; on the next pass the watch request fails.  The stream is
    cleared, but no snapshot is written on that pass, so the snapshot on
    file still names Alice's stream; and the next snapshot the orchestrator
    writes, on the pass after, names Bob's stream as current.  No snapshot
    with a null current stream follows the failure. *)
Theorem next_snapshot_after_failure_has_stream :
  stream_access_token (pass 30 [streamA] (Raise ClientError)) = Raise ClientError /\
  current_stream watching = Some alice_stream /\
  current_stream after_failure = None /\
  status_writes (storage after_failure) = status_writes (storage watching) /\
  (exists stale,
     last (status_writes (storage after_failure)) = Some stale /\
     status_current_stream stale = Some alice_stream) /\
  exists status stream,
    status_writes (storage after_rediscovery)
    = status_writes (storage after_failure) ++ [status] /\
    status_current_stream status = Some stream /\
    Stream_user_login stream = "bob".
Proof.
  split; [reflexivity|]. split; [vm_compute; reflexivity|].
  split; [vm_compute; reflexivity|].
  split; [vm_compute; reflexivity|].
  split.
  - eexists. split; [vm_compute; reflexivity|reflexivity].
  - eexists. eexists. split; [vm_compute; reflexivity|].
    split; reflexivity.
Qed.

Lemma failed_watch_clears_stream_witness :
  stream_access_token (pass 30 [streamA] (Raise ClientError)) = Raise ClientError /\
  current_stream
    (_watch_stream quiet (pass 30 [streamA] (Raise ClientError)) alice_stream
       watching) = None /\
  status_writes
    (storage (_watch_stream quiet (pass 30 [streamA] (Raise ClientError))
                alice_stream watching))
  = status_writes (storage watching).
Proof.
  split; [reflexivity|].
  destruct (failed_watch_clears_stream quiet
              (pass 30 [streamA] (Raise ClientError)) alice_stream watching
              ClientError eq_refl)
    as (Hnone & _ & Hwrites & _).
  split; [exact Hnone|exact Hwrites].
Defined.

Section IdleInvariant.

Context (emit_raises : client -> message -> option string).

Local Abbreviation start := (Miner.start emit_raises).
Local Abbreviation stop := (Miner.stop emit_raises).
Local Abbreviation finish_all := (Miner.finish_all emit_raises).
Local Abbreviation run := (Miner.run emit_raises).
Local Abbreviation all_join_in_time := (Miner.all_join_in_time emit_raises).

(** C8, as the code has it.  Over every sequence of [start()] and [stop()]
    calls and loop passes in which each [stop()] sees the passes in flight
    finish before its join gives up, an orchestrator that is not running has
    no current stream.  [start()] changes nothing when already running,
    [stop()] changes nothing when not running, and a [stop()] of a running
    orchestrator leaves it not running with current game, current stream
    and watch start time cleared. *)
Theorem idle_miner_has_no_stream (st : Storage) (evs : list event) :
  all_join_in_time (System_init st) evs = true ->
  (is_running (miner (run (System_init st) evs)) = false ->
   current_stream (miner (run (System_init st) evs)) = None) /\
  (forall now m, is_running m = true -> start now m = m) /\
  (forall now join m, is_running m = false -> stop now join m = m) /\
  (forall now join m,
     is_running m = true ->
     current_game (stop now join m) = None /\
     current_stream (stop now join m) = None /\
     watch_start_time (stop now join m) = None) /\
  (forall now envs m,
     is_running m = true -> is_running (stop now (finish_all envs) m) = false).
Proof.
  intros Hjoin. split; [|split; [|split; [|split]]].
  - intros Hidle.
    apply (run_settled emit_raises evs (System_init st)); [|exact Hjoin|exact Hidle].
    intros _. split; reflexivity.
  - intros now m Hrun. unfold Miner.start. rewrite Hrun. reflexivity.
  - intros now join m Hidle. unfold Miner.stop. rewrite Hidle. reflexivity.
  - intros now join m Hrun.
    pose proof (stop_when_running emit_raises now join m Hrun) as Hc.
    unfold control in Hc. injection Hc as _ Hg Hs Ht _. auto.
  - intros now envs m Hrun.
    pose proof (stop_when_running emit_raises now (finish_all envs) m Hrun) as Hc.
    unfold control in Hc. injection Hc as Hr _ _ _ _. rewrite Hr.
    apply (finish_all_flags emit_raises envs (with_control false true m)).
Qed.

End IdleInvariant.

(** C8 as claimed fails: [start()], a pass that has entered the loop body,
    a [stop()] whose join gives up before that pass finishes, and then the
    end of the pass leave the orchestrator not running with Alice's stream
    as current stream. *)
Lemma stopped_miner_with_stream :
  is_running (miner (run quiet (System_init store1) late_pass)) = false /\
  current_stream (miner (run quiet (System_init store1) late_pass))
  = Some alice_stream /\
  current_stream (miner (run quiet (System_init store1) late_pass)) <> None.
Proof.
  split; [vm_compute; reflexivity|].
  assert (H : current_stream (miner (run quiet (System_init store1) late_pass))
              = Some alice_stream) by (vm_compute; reflexivity).
  split; [exact H|]. rewrite H. discriminate.
Qed.

Lemma idle_miner_has_no_stream_witness :
  all_join_in_time quiet (System_init store1) pass_joined = true /\
  is_running (miner (run quiet (System_init store1) pass_joined)) = false /\
  current_stream (miner (run quiet (System_init store1) pass_joined)) = None.
Proof.
  assert (Hjoin : all_join_in_time quiet (System_init store1) pass_joined = true)
    by (vm_compute; reflexivity).
  assert (Hidle : is_running (miner (run quiet (System_init store1) pass_joined))
                  = false) by (vm_compute; reflexivity).
  split; [exact Hjoin|]. split; [exact Hidle|].
  exact (proj1 (idle_miner_has_no_stream quiet store1 pass_joined Hjoin) Hidle).
Defined.

(** ** The theorems at concrete inputs *)

Lemma first_known_game_is_selected_witness :
  select_next_game ["g9"; "g1"] {["g1" := game1]} = Some game1 /\
  exists m' current,
    _process_next_game quiet (pass 10 [streamA] (Ok (PDict [])))
      (Miner_init store1) = Ok m' /\
    current_game m' = Some current /\
    Game_id current = Game_id game1.
Proof.
  assert (Hsel : select_next_game ["g9"; "g1"] {["g1" := game1]} = Some game1)
    by (vm_compute; reflexivity).
  split; [exact Hsel|].
  apply (proj2 (proj2 (first_known_game_is_selected quiet ["g9"; "g1"]
                         {["g1" := game1]}))
           (pass 10 [streamA] (Ok (PDict []))) (Miner_init store1) game1).
  - vm_compute. reflexivity.
  - reflexivity.
  - reflexivity.
  - exact Hsel.
Defined.

Lemma publish_isolates_failing_subscriber_witness :
  ws_clients (_broadcast_log_update socket_2_closed warning_entry three_subscribers)
  = ws_clients three_subscribers ∖ {[2%nat]} /\
  ws_clients (_broadcast_status_update socket_2_closed 7
                (snapshot 7 three_subscribers) three_subscribers)
  = ws_clients three_subscribers ∖ {[2%nat]}.
Proof.
  destruct (publish_isolates_failing_subscriber socket_2_closed
              three_subscribers 2%nat) as (_ & Hstatus & Hlog).
  - simpl. apply elem_of_union_r, elem_of_union_l, elem_of_singleton.
    reflexivity.
  - intros c _ Hne msg. unfold socket_2_closed.
    destruct (Nat.eqb_spec c 2); [contradiction|reflexivity].
  - split.
    + apply (Hlog warning_entry). discriminate.
    + apply (Hstatus 7 (snapshot 7 three_subscribers)). discriminate.
Defined.

(** * Further properties of core/twitch.py *)

Section PollDuration.

Variable interval : Z.
Variable server : nat -> http_reply.

Lemma handle_reply_sleeps_again r :
  handle_reply r = Continue true -> error_reply r "slow_down".
Proof.
  unfold error_reply. destruct r as [status body|]; simpl; [|discriminate].
  destruct (Z.eqb_spec status 200) as [->|_].
  { destruct body as [[| | | | |json_data]|]; try discriminate.
    destruct (dict_get "access_token" json_data); discriminate. }
  destruct (Z.eqb_spec status 400) as [->|_]; [|discriminate].
  destruct body as [[| | | | |json_data]|]; try discriminate.
  destruct (dict_get "error" json_data) as [e|] eqn:E; [|simpl; discriminate].
  destruct (eq_str e "authorization_pending"); [discriminate|].
  destruct (eq_str e "expired_token" || eq_str e "access_denied");
    [discriminate|].
  destruct (eq_str e "slow_down") eqn:Es; [|discriminate].
  apply eq_str_true in Es as ->. eauto.
Qed.

Lemma poll_loop_finished remaining attempt now a :
  0 <= interval ->
  now <= finished (poll_loop interval server remaining attempt now a)
      <= now + Z.of_nat remaining * (2 * interval) /\
  ((forall k, ~ error_reply (server k) "slow_down") ->
   finished (poll_loop interval server remaining attempt now a)
   <= now + Z.of_nat remaining * interval).
Proof.
  intros Hpos. revert attempt now.
  induction remaining as [|n IH]; intros attempt now; simpl.
  - split; [lia|]. intros _. lia.
  - destruct (handle_reply (server attempt)) as [token| |b] eqn:E; simpl.
    + split; [nia|]. intros _. nia.
    + split; [nia|]. intros _. nia.
    + destruct b.
      * destruct (IH (S attempt) (now + interval + interval)) as [Hb _].
        split; [nia|]. intros Hnone. exfalso.
        apply (Hnone attempt), handle_reply_sleeps_again, E.
      * destruct (IH (S attempt) (now + interval)) as [Hb Hquiet].
        split; [nia|]. intros Hnone. specialize (Hquiet Hnone). nia.
Qed.

Lemma budget_fits_five_minutes :
  0 < interval -> Z.of_nat (max_attempts interval) * interval <= 300.
Proof.
  intros Hpos. unfold max_attempts.
  rewrite Z2Nat.id by (apply Z.div_pos; lia).
  rewrite Z.mul_comm. apply Z.mul_div_le. exact Hpos.
Qed.

(** X1.  The loop sleeps at most 600 seconds in all, and at most 300 when no
    attempt is answered by [slow_down]. *)
Theorem poll_device_auth_sleeps_at_most (tw : Twitch) (device_code : string)
  (r : poll_run) :
  0 < interval ->
  poll_device_auth tw device_code interval server = Ok r ->
  0 <= finished r <= 600 /\
  ((forall k, ~ error_reply (server k) "slow_down") -> finished r <= 300).
Proof.
  intros Hpos Hrun. unfold poll_device_auth in Hrun.
  destruct (Z.eqb_spec interval 0) as [->|_]; [lia|].
  injection Hrun as <-.
  pose proof (budget_fits_five_minutes Hpos) as Hbudget.
  destruct (poll_loop_finished (max_attempts interval) 0 0 (auth tw))
    as [Hb Hquiet]; [lia|].
  split; [lia|]. intros Hnone. specialize (Hquiet Hnone). lia.
Qed.

(** X2.  A run that fails hands back the [AuthManager] it was given; one that
    succeeds has only overwritten [access_token], with the token it
    returns. *)
Theorem poll_device_auth_writes_only_token (tw : Twitch) (device_code : string)
  (r : poll_run) :
  poll_device_auth tw device_code interval server = Ok r ->
  match outcome r with
  | Authenticated token =>
      auth_after r = setattr (auth tw) "access_token" token /\
      returned r = token /\
      forall attr, attr <> "access_token" ->
        getattr (auth_after r) attr = getattr (auth tw) attr
  | Failed => auth_after r = auth tw /\ returned r = PNone
  end.
Proof.
  unfold poll_device_auth. destruct (interval =? 0); [discriminate|].
  intros [= <-]. unfold returned.
  generalize (max_attempts interval) 0%nat 0.
  intros remaining. induction remaining as [|n IH]; intros attempt now; simpl.
  - auto.
  - destruct (handle_reply (server attempt)) as [token| |b]; simpl.
    + split; [reflexivity|]. split; [reflexivity|].
      intros attr Hne. unfold getattr, setattr. simpl.
      rewrite lookup_insert_ne by congruence. reflexivity.
    + auto.
    + apply IH.
Qed.

End PollDuration.

Lemma poll_device_auth_sleeps_at_most_witness :
  finished (poll_loop 5 always_slow_down (max_attempts 5) 0 0 AuthManager_init)
  = 600 /\
  0 <= finished (poll_loop 5 always_slow_down (max_attempts 5) 0 0 AuthManager_init)
    <= 600.
Proof.
  split; [vm_compute; reflexivity|].
  apply (poll_device_auth_sleeps_at_most 5 always_slow_down
           (Twitch_init web_client) "device-code"
           (poll_loop 5 always_slow_down (max_attempts 5) 0 0 AuthManager_init)).
  - lia.
  - reflexivity.
Defined.

Lemma poll_device_auth_writes_only_token_witness :
  getattr (auth_after (poll_loop 5 approves_at_once (max_attempts 5) 0 0
                         AuthManager_init)) "device_id"
  = getattr (auth (Twitch_init web_client)) "device_id".
Proof.
  pose proof (poll_device_auth_writes_only_token 5 approves_at_once
                (Twitch_init web_client) "device-code"
                (poll_loop 5 approves_at_once (max_attempts 5) 0 0
                   AuthManager_init) eq_refl) as H.
  change (outcome (poll_loop 5 approves_at_once (max_attempts 5) 0 0
                     AuthManager_init))
    with (Authenticated (PStr "tok")) in H.
  destruct H as (_ & _ & Hother).
  apply Hother. discriminate.
Defined.

Section SessionStates.

Lemma auth_reachable_flag (a : AuthManager) :
  auth_reachable a -> _logged_in a = false.
Proof.
  induction 1 as [|a _ _|a ct device_code interval server r _ IH Hrun].
  - reflexivity.
  - reflexivity.
  - rewrite (poll_device_auth_flag _ _ _ _ _ Hrun). exact IH.
Qed.

(** X3.  Whatever polls and logouts an [AuthManager] has been through since it
    was created, [is_logged_in] is false, and [gql_request] on a client that
    holds it raises the not-logged-in exception without posting. *)
Theorem reachable_session_is_never_logged_in (a : AuthManager)
  (ct : ClientType) (operations : list pyval) (net : gql_post -> http_reply) :
  auth_reachable a ->
  is_logged_in a = Ok false /\
  gql_request {| _client_type := ct; auth := a |} operations net
  = (Raise (GQLException NotLoggedIn), []).
Proof.
  intros Hreach. pose proof (auth_reachable_flag a Hreach) as Hflag.
  assert (Hlogin : is_logged_in a = Ok false)
    by (unfold is_logged_in; rewrite Hflag; reflexivity).
  split; [exact Hlogin|].
  unfold gql_request. simpl. rewrite Hlogin. reflexivity.
Qed.

End SessionStates.

Lemma reachable_session_is_never_logged_in_witness :
  is_logged_in
    (auth_after (poll_loop 5 approves_at_once (max_attempts 5) 0 0
                   (clear AuthManager_init))) = Ok false.
Proof.
  apply (reachable_session_is_never_logged_in _ web_client [] answers_object).
  apply (reach_poll (clear AuthManager_init) web_client "device-code" 5
           approves_at_once).
  - apply reach_clear, reach_init.
  - reflexivity.
Defined.

Section HeaderInjection.

Lemma get_set_header_same name v h :
  get_header name (set_header name v h) = Some v.
Proof.
  induction h as [|[k w] h IH]; simpl.
  - rewrite String.eqb_refl. reflexivity.
  - destruct (String.eqb k name) eqn:E; simpl; rewrite E; [reflexivity|exact IH].
Qed.

Lemma get_set_header_other name other v h :
  other <> name -> get_header other (set_header name v h) = get_header other h.
Proof.
  intros Hne. induction h as [|[k w] h IH]; simpl.
  - destruct (String.eqb_spec name other); [congruence|reflexivity].
  - destruct (String.eqb_spec k name) as [->|Hk]; simpl.
    + destruct (String.eqb_spec name other); [congruence|reflexivity].
    + destruct (String.eqb k other); [reflexivity|exact IH].
Qed.

(** X4.  With a truthy token [request] sets the Authorization header to the
    OAuth token, replacing one the caller passed, and leaves every other
    header as it was; with [None] or an empty token it passes the keyword
    arguments on untouched. *)
Theorem request_injects_token (tw : Twitch) (kwargs_headers : option headers)
  (token : pyval) :
  getattr (auth tw) "access_token" = Ok token ->
  (truthy token = true ->
   exists sent,
     request tw kwargs_headers = Ok (Some sent) /\
     get_header "Authorization" sent = Some (HOAuth token) /\
     forall name, name <> "Authorization" ->
       get_header name sent
       = get_header name (match kwargs_headers with Some h => h | None => [] end)) /\
  (truthy token = false -> request tw kwargs_headers = Ok kwargs_headers).
Proof.
  intros Htoken. unfold request. rewrite Htoken. simpl. split.
  - intros ->. eexists. split; [reflexivity|]. split.
    + apply get_set_header_same.
    + intros name Hne. apply get_set_header_other. exact Hne.
  - intros ->. reflexivity.
Qed.

End HeaderInjection.

Lemma request_injects_token_witness :
  exists sent,
    request signed_in_client (Some [("Authorization", HLit "Bearer old");
                                    ("Accept", HLit "application/json")])
    = Ok (Some sent) /\
    get_header "Authorization" sent = Some (HOAuth (PStr "tok")) /\
    get_header "Accept" sent = Some (HLit "application/json").
Proof.
  destruct (request_injects_token signed_in_client
              (Some [("Authorization", HLit "Bearer old");
                     ("Accept", HLit "application/json")])
              (PStr "tok")) as [Hset _].
  - vm_compute. reflexivity.
  - destruct (Hset eq_refl) as (sent & Hreq & Hauth & Hrest).
    exists sent. split; [exact Hreq|]. split; [exact Hauth|].
    rewrite Hrest by discriminate. reflexivity.
Defined.

(** ** The GraphQL wrappers *)

Section Wrappers.

Variable GQL_OPERATIONS : gmap string pyval.
Variable tw : Twitch.
Variable net : gql_post -> http_reply.

Lemma gql_request_returns operations results sent :
  gql_request tw operations net = (Ok results, sent) ->
  exists p json_data,
    sent = [p] /\
    net p = Reply 200 (Some json_data) /\
    post_json p = match operations with
                  | [op] => op
                  | _ => PList operations
                  end /\
    results = match json_data with
              | PList l => l
              | _ => [json_data]
              end.
Proof.
  unfold gql_request.
  destruct (is_logged_in (auth tw)) as [[|]|e]; try discriminate.
  destruct (getattr (auth tw) "access_token") as [token|e]; [|discriminate].
  destruct (getattr (auth tw) "device_id") as [device_id|e]; [|discriminate].
  match goal with
  | |- context [net ?q] => set (p := q); destruct (net p) as [status body|] eqn:E
  end; [|discriminate].
  destruct (Z.eqb_spec status 200) as [->|Hne]; simpl; [|discriminate].
  destruct body as [json_data|]; [|discriminate].
  intros Hres. exists p, json_data.
  assert (results = match json_data with PList l => l | _ => [json_data] end
          /\ sent = [p]) as [-> ->]
    by (destruct json_data; injection Hres as <- <-; split; reflexivity).
  split; [reflexivity|]. split; [exact E|]. split; reflexivity.
Qed.

Lemma build_known operation_name variables sha256Hash :
  GQL_OPERATIONS !! operation_name = Some sha256Hash ->
  exists operation,
    _build_gql_operation GQL_OPERATIONS operation_name variables
    = Ok (PDict operation) /\
    dict_get "operationName" operation = Some (PStr operation_name) /\
    dict_get "extensions" operation
    = Some (PDict [("persistedQuery",
                    PDict [("version", PInt 1); ("sha256Hash", sha256Hash)])]) /\
    dict_get "variables" operation
    = if truthy variables then Some variables else None.
Proof.
  intros Hknown. unfold _build_gql_operation. rewrite Hknown.
  eexists. split; [reflexivity|].
  destruct (truthy variables); repeat split; reflexivity.
Qed.

(** X5.  A one-operation wrapper whose operation is not in the table raises
    the unknown-operation exception without posting, logged in or not.  When
    it returns, it has posted once, the operation object itself (not a
    list) under its name and hash, with ["variables"] present exactly when
    they are truthy; and the value is the first element of a list answer,
    the empty object for an empty list, and a non-list answer as it is. *)
Theorem single_operation_contract (operation_name : string) (variables : pyval) :
  (GQL_OPERATIONS !! operation_name = None ->
   single_operation GQL_OPERATIONS tw operation_name variables net
   = (Raise (GQLException (UnknownOperation operation_name)), [])) /\
  (forall value sent,
     single_operation GQL_OPERATIONS tw operation_name variables net
     = (Ok value, sent) ->
     exists p operation sha256Hash json_data,
       sent = [p] /\
       post_json p = PDict operation /\
       GQL_OPERATIONS !! operation_name = Some sha256Hash /\
       dict_get "operationName" operation = Some (PStr operation_name) /\
       dict_get "extensions" operation
       = Some (PDict [("persistedQuery",
                       PDict [("version", PInt 1); ("sha256Hash", sha256Hash)])]) /\
       dict_get "variables" operation
       = (if truthy variables then Some variables else None) /\
       net p = Reply 200 (Some json_data) /\
       value = match json_data with
               | PList (first :: _) => first
               | PList [] => PDict []
               | _ => json_data
               end).
Proof.
  unfold single_operation. split.
  - intros Hunknown. unfold _build_gql_operation. rewrite Hunknown. reflexivity.
  - intros value sent.
    destruct (GQL_OPERATIONS !! operation_name) as [sha256Hash|] eqn:Hknown.
    + destruct (build_known operation_name variables sha256Hash Hknown)
        as (operation & -> & Hname & Hext & Hvars).
      destruct (gql_request tw [PDict operation] net) as [[results|e] sent']
        eqn:Hreq; [|discriminate].
      intros [= <- <-].
      destruct (gql_request_returns _ _ _ Hreq)
        as (p & json_data & -> & Hnet & Hjson & ->).
      exists p, operation, sha256Hash, json_data.
      repeat split; try assumption.
      destruct json_data as [| | | |[|first rest]|]; reflexivity.
    + unfold _build_gql_operation. rewrite Hknown. discriminate.
Qed.

(** X6.  After [clear()] every wrapper whose operation is known raises the
    not-logged-in exception and posts nothing, whatever the session held
    before. *)
Theorem wrappers_after_logout (a : AuthManager) (operation_name : string)
  (variables : pyval) (game_name : string) (limit : Z) :
  (is_Some (GQL_OPERATIONS !! operation_name) ->
   single_operation GQL_OPERATIONS (with_auth tw (clear a)) operation_name
     variables net
   = (Raise (GQLException NotLoggedIn), [])) /\
  (is_Some (GQL_OPERATIONS !! "DirectoryPage_Game") ->
   get_streams_for_game GQL_OPERATIONS (with_auth tw (clear a)) game_name limit
     net
   = (Raise (GQLException NotLoggedIn), [])).
Proof.
  split.
  - intros [h Hknown]. unfold single_operation, _build_gql_operation.
    rewrite Hknown. reflexivity.
  - intros [h Hknown]. unfold get_streams_for_game, _build_gql_operation.
    rewrite Hknown. reflexivity.
Qed.

End Wrappers.

(** ** Reading the streams out of a discovery answer *)

Section StreamDiscovery.

Lemma stream_of_edge_yields edge o :
  edge_yields edge o -> stream_of_edge edge = Ok o.
Proof.
  intros [e Hnone|e n b settings Hnode Hb Hs]; unfold stream_of_edge; simpl.
  - rewrite Hnone. reflexivity.
  - rewrite Hnode. simpl.
    change (match dict_get "broadcaster" n with
            | Some x => x
            | None => PDict []
            end) with (or_default (PDict []) (dict_get "broadcaster" n)).
    rewrite Hb. simpl.
    change (match dict_get "broadcastSettings" b with
            | Some x => x
            | None => PDict []
            end) with (or_default (PDict []) (dict_get "broadcastSettings" b)).
    rewrite Hs. reflexivity.
Qed.

Lemma streams_of_edges_yields edges outs :
  Forall2 edge_yields edges outs ->
  forall streams, streams_of_edges edges streams = Ok (streams ++ omap id outs).
Proof.
  induction 1 as [|edge o edges outs Hedge _ IH]; intros streams; simpl.
  - rewrite app_nil_r. reflexivity.
  - rewrite (stream_of_edge_yields edge o Hedge). simpl.
    destruct o as [stream|]; simpl.
    + rewrite IH, <- app_assoc. reflexivity.
    + apply IH.
Qed.

Lemma stream_of_edge_breaks edge :
  edge_breaks edge -> stream_of_edge edge = Raise (AttributeError "get").
Proof.
  intros [e node Hnode Hobj|e n Hnode Hobj|e n b Hnode Hb Hobj];
    unfold stream_of_edge; simpl; rewrite Hnode; simpl.
  - destruct node; try reflexivity. discriminate.
  - change (match dict_get "broadcaster" n with
            | Some x => x
            | None => PDict []
            end) with (or_default (PDict []) (dict_get "broadcaster" n)).
    destruct (or_default (PDict []) (dict_get "broadcaster" n));
      try reflexivity. discriminate.
  - change (match dict_get "broadcaster" n with
            | Some x => x
            | None => PDict []
            end) with (or_default (PDict []) (dict_get "broadcaster" n)).
    rewrite Hb. simpl.
    change (match dict_get "broadcastSettings" b with
            | Some x => x
            | None => PDict []
            end) with (or_default (PDict []) (dict_get "broadcastSettings" b)).
    destruct (or_default (PDict []) (dict_get "broadcastSettings" b));
      try reflexivity. discriminate.
Qed.

Lemma streams_of_edges_breaks good outs bad later :
  Forall2 edge_yields good outs -> edge_breaks bad ->
  forall streams,
    streams_of_edges (good ++ bad :: later) streams
    = Raise (AttributeError "get").
Proof.
  intros Hgood Hbad.
  induction Hgood as [|edge o good outs Hedge _ IH]; intros streams; simpl.
  - rewrite (stream_of_edge_breaks bad Hbad). reflexivity.
  - rewrite (stream_of_edge_yields edge o Hedge). simpl.
    destruct o; apply IH.
Qed.

(** Every edge object either yields or breaks. *)
Lemma edge_object_cases e :
  (exists o, edge_yields (PDict e) o) \/ edge_breaks (PDict e).
Proof.
  destruct (dict_get "node" e) as [node|] eqn:Hnode.
  - destruct node as [| | | | |n];
      try (right; eapply node_not_object; [exact Hnode|reflexivity]).
    destruct (or_default (PDict []) (dict_get "broadcaster" n))
      as [| | | | |b] eqn:Hb;
      try (right; eapply broadcaster_not_object;
           [exact Hnode|rewrite Hb; reflexivity]).
    destruct (or_default (PDict []) (dict_get "broadcastSettings" b))
      as [| | | | |settings] eqn:Hs;
      try (right; eapply settings_not_object;
           [exact Hnode|exact Hb|rewrite Hs; reflexivity]).
    left. eexists. eapply edge_with_node; eassumption.
  - left. exists None. apply edge_without_node. exact Hnode.
Qed.

Lemma edge_objects_cases edges :
  Forall (fun edge => exists e, edge = PDict e) edges ->
  (exists outs, Forall2 edge_yields edges outs) \/
  (exists good outs bad later,
     edges = good ++ bad :: later /\
     Forall2 edge_yields good outs /\ edge_breaks bad).
Proof.
  induction 1 as [|edge edges [e ->] _ IH].
  - left. exists []. constructor.
  - destruct (edge_object_cases e) as [[o Ho]|Hbad].
    + destruct IH as [[outs Hall]|(good & outs & bad & later & -> & Hgood & Hbad)].
      * left. exists (o :: outs). constructor; assumption.
      * right. exists (PDict e :: good), (o :: outs), bad, later.
        split; [reflexivity|]. split; [constructor; assumption|exact Hbad].
    + right. exists [], [], (PDict e), edges.
      split; [reflexivity|]. split; [constructor|exact Hbad].
Qed.

(** X7.  An answer whose first result carries a list of edge objects under
    data, game, streams, edges; the other results are not looked at.  If in
    every edge that has a node the node is an object and so are, when
    present, its broadcaster and the broadcaster's broadcast settings, the
    call returns one stream per edge that has a node, in the order of the
    edges, each field taken as it is from the node or its broadcaster and
    defaulted when absent.  If not, it raises [AttributeError] at the first
    edge where one of the three is there without being an object (null,
    say).  Every list of edge objects is of one of these two kinds. *)
Theorem parse_streams_reads_edges (top : list (string * pyval))
  (rest edges : list pyval) :
  carries_edges top (PList edges) ->
  (forall outs,
     Forall2 edge_yields edges outs ->
     parse_streams (PDict top :: rest) = Ok (omap id outs) /\
     (length (omap id outs) <= length edges)%nat) /\
  (forall good outs bad later,
     edges = good ++ bad :: later ->
     Forall2 edge_yields good outs -> edge_breaks bad ->
     parse_streams (PDict top :: rest) = Raise (AttributeError "get")) /\
  (Forall (fun edge => exists e, edge = PDict e) edges ->
   (exists outs, Forall2 edge_yields edges outs) \/
   (exists good outs bad later,
      edges = good ++ bad :: later /\
      Forall2 edge_yields good outs /\ edge_breaks bad)).
Proof.
  intros (data & game & stream_data & Hdata & Hgame & Hstreams & Hedges).
  assert (Htruthy : match game with [] => false | _ :: _ => true end = true)
    by (destruct game; [discriminate|reflexivity]).
  assert (Hparse : parse_streams (PDict top :: rest) = streams_of_edges edges []).
  { unfold parse_streams. simpl. rewrite Hdata. simpl. rewrite Hgame. simpl.
    rewrite Htruthy, Hstreams. simpl. rewrite Hedges. reflexivity. }
  split; [|split].
  - intros outs Hall. split.
    + rewrite Hparse. apply (streams_of_edges_yields edges outs Hall []).
    + rewrite (Forall2_length _ _ _ Hall). clear Hall.
      induction outs as [|[s|] outs IH]; [reflexivity|..];
        change (omap id (Some s :: outs)) with (s :: omap id outs)
        || change (omap id (None :: outs)) with (omap id outs); simpl; lia.
  - intros good outs bad later -> Hgood Hbad. rewrite Hparse.
    apply (streams_of_edges_breaks good outs bad later Hgood Hbad).
  - apply edge_objects_cases.
Qed.

(** X8.  No results, no data, no game, or a game that is null give the empty
    list; an answer whose edges are null raises [TypeError]. *)
Theorem parse_streams_without_game (top : list (string * pyval))
  (rest : list pyval) :
  parse_streams [] = Ok [] /\
  (dict_get "data" top = None -> parse_streams (PDict top :: rest) = Ok []) /\
  (forall data,
     dict_get "data" top = Some (PDict data) ->
     dict_get "game" data = None \/
     (exists game, dict_get "game" data = Some game /\ truthy game = false) ->
     parse_streams (PDict top :: rest) = Ok []) /\
  (carries_edges top PNone -> parse_streams (PDict top :: rest) = Raise TypeError).
Proof.
  split; [reflexivity|]. split; [|split].
  - intros Hnone. unfold parse_streams. simpl. rewrite Hnone. reflexivity.
  - intros data Hdata [Hnone|(game & Hgame & Hfalsy)];
      unfold parse_streams; simpl; rewrite Hdata; simpl.
    + rewrite Hnone. reflexivity.
    + rewrite Hgame. simpl. rewrite Hfalsy. reflexivity.
  - intros (data & game & stream_data & Hdata & Hgame & Hstreams & Hedges).
    unfold parse_streams. simpl. rewrite Hdata. simpl. rewrite Hgame. simpl.
    assert (Htruthy : match game with [] => false | _ :: _ => true end = true)
      by (destruct game; [discriminate|reflexivity]).
    rewrite Htruthy, Hstreams. simpl. rewrite Hedges. reflexivity.
Qed.

End StreamDiscovery.

(** ** Start of the device flow *)

Section DeviceFlow.

Lemma device_field_object key d :
  device_field key (PDict d)
  = match dict_get key d with
    | Some v => inr v
    | None => inl (MissingField key)
    end.
Proof. reflexivity. Qed.

(** X9.  A 4xx or 5xx answer raises whatever its body.  Any other answer with an
    object as body gives the five fields, each with the value the object
    has under that name and nothing else, exactly when all five are there;
    otherwise it raises [KeyError]. *)
Theorem start_device_auth_fields (status : Z) (body : option pyval)
  (d : list (string * pyval)) :
  (400 <= status < 600 ->
   start_device_auth (Reply status body) = inl (HTTPError status)) /\
  (~ (400 <= status < 600) ->
   (forall fields,
      start_device_auth (Reply status (Some (PDict d))) = inr fields <->
      exists verification_uri user_code device_code expires_in interval,
        dict_get "verification_uri" d = Some verification_uri /\
        dict_get "user_code" d = Some user_code /\
        dict_get "device_code" d = Some device_code /\
        dict_get "expires_in" d = Some expires_in /\
        dict_get "interval" d = Some interval /\
        fields = [("verification_uri", verification_uri);
                  ("user_code", user_code); ("device_code", device_code);
                  ("expires_in", expires_in); ("interval", interval)]) /\
   (forall failure,
      start_device_auth (Reply status (Some (PDict d))) = inl failure ->
      exists key, failure = MissingField key /\ dict_get key d = None)).
Proof.
  split.
  - intros Hrange. unfold start_device_auth.
    destruct (Z.leb_spec 400 status); [|lia].
    destruct (Z.ltb_spec status 600); [|lia]. reflexivity.
  - intros Hrange. unfold start_device_auth.
    assert (Hguard : (400 <=? status) && (status <? 600) = false).
    { destruct (Z.leb_spec 400 status); [|reflexivity].
      destruct (Z.ltb_spec status 600); [lia|reflexivity]. }
    rewrite Hguard, !device_field_object.
    destruct (dict_get "verification_uri" d) as [v1|] eqn:E1.
    2:{ split; [intros fields; split; [discriminate|]|].
        - intros (? & ? & ? & ? & ? & H & _). discriminate.
        - intros failure [= <-]. eauto. }
    destruct (dict_get "user_code" d) as [v2|] eqn:E2.
    2:{ split; [intros fields; split; [discriminate|]|].
        - intros (? & ? & ? & ? & ? & _ & H & _). discriminate.
        - intros failure [= <-]. eauto. }
    destruct (dict_get "device_code" d) as [v3|] eqn:E3.
    2:{ split; [intros fields; split; [discriminate|]|].
        - intros (? & ? & ? & ? & ? & _ & _ & H & _). discriminate.
        - intros failure [= <-]. eauto. }
    destruct (dict_get "expires_in" d) as [v4|] eqn:E4.
    2:{ split; [intros fields; split; [discriminate|]|].
        - intros (? & ? & ? & ? & ? & _ & _ & _ & H & _). discriminate.
        - intros failure [= <-]. eauto. }
    destruct (dict_get "interval" d) as [v5|] eqn:E5.
    2:{ split; [intros fields; split; [discriminate|]|].
        - intros (? & ? & ? & ? & ? & _ & _ & _ & _ & H & _). discriminate.
        - intros failure [= <-]. eauto. }
    split; [|discriminate].
    intros fields. split.
    + intros [= <-]. exists v1, v2, v3, v4, v5. repeat split; reflexivity.
    + intros (w1 & w2 & w3 & w4 & w5 & [= <-] & [= <-] & [= <-] & [= <-]
              & [= <-] & ->). reflexivity.
Qed.

End DeviceFlow.

(** * Further properties of core/storage.py *)

Section GamesStore.

(** X10.  After [add_game] the game is found under its id and every other id
    gives what it gave before; the id is in the watch list, at the end when
    it is new and where it was otherwise, so a list without repetitions
    stays one; adding the same game again changes nothing. *)
Theorem add_game_then_lookup (game : Game) (st : Storage) :
  get_game (Game_id game) (add_game game st) = Some game /\
  (forall other, other <> Game_id game ->
     get_game other (add_game game st) = get_game other st) /\
  Game_id game ∈ settings_games (add_game game st) /\
  settings_games st `prefix_of` settings_games (add_game game st) /\
  (NoDup (settings_games st) -> NoDup (settings_games (add_game game st))) /\
  add_game game (add_game game st) = add_game game st.
Proof.
  unfold get_game, add_game, get_games, with_games.
  cbn [settings_games games_file logs_file status_writes].
  split; [apply lookup_insert_eq|].
  split; [intros other Hne; apply lookup_insert_ne; congruence|].
  destruct (decide (Game_id game ∈ settings_games st)) as [Hin|Hnotin].
  - rewrite !(bool_decide_eq_true_2 _ Hin). cbv iota.
    rewrite insert_insert_eq.
    split; [exact Hin|]. split; [reflexivity|]. split; [auto|reflexivity].
  - rewrite !(bool_decide_eq_false_2 _ Hnotin). cbv iota.
    assert (Hnow : Game_id game ∈ settings_games st ++ [Game_id game])
      by (apply elem_of_app; right; left).
    rewrite (bool_decide_eq_true_2 _ Hnow), insert_insert_eq. cbv iota.
    split; [exact Hnow|]. split; [apply prefix_app_r; reflexivity|].
    split; [|reflexivity].
    intros Hnd. apply NoDup_app. split; [exact Hnd|]. split.
    + intros x Hx Hx'. apply list_elem_of_singleton in Hx' as ->. contradiction.
    + apply NoDup_singleton.
Qed.

Lemma remove_first_other x y l : y <> x -> y ∈ remove_first x l <-> y ∈ l.
Proof.
  intros Hne. induction l as [|z l IH]; simpl; [reflexivity|].
  destruct (String.eqb_spec z x) as [->|Hz].
  - rewrite elem_of_cons. split; [auto|]. intros [?|?]; [congruence|assumption].
  - rewrite !elem_of_cons, IH. reflexivity.
Qed.

Lemma remove_first_gone x l : NoDup l -> x ∉ remove_first x l.
Proof.
  induction l as [|z l IH]; simpl; intros Hnd; [apply not_elem_of_nil|].
  apply NoDup_cons in Hnd as [Hz Hnd].
  destruct (String.eqb_spec z x) as [->|Hne]; [exact Hz|].
  apply not_elem_of_cons. split; [congruence|apply IH; exact Hnd].
Qed.

(** X11.  After [remove_game] the id is no longer in the catalog, and every other
    id is in the catalog and in the watch list exactly as before.  The id
    itself is gone from a watch list that held it once; of several
    occurrences only the first is removed. *)
Theorem remove_game_then_lookup (game_id : string) (st : Storage) :
  get_game game_id (remove_game game_id st) = None /\
  (forall other, other <> game_id ->
     get_game other (remove_game game_id st) = get_game other st /\
     (other ∈ settings_games (remove_game game_id st) <->
      other ∈ settings_games st)) /\
  (NoDup (settings_games st) ->
   game_id ∉ settings_games (remove_game game_id st)) /\
  (forall before after,
     settings_games st = before ++ game_id :: after -> game_id ∉ before ->
     settings_games (remove_game game_id st) = before ++ after).
Proof.
  unfold get_game, remove_game, get_games, with_games.
  cbn [settings_games games_file logs_file status_writes].
  split; [|split; [|split]].
  - destruct (games_file st !! game_id) eqn:E; [apply lookup_delete_eq|exact E].
  - intros other Hne. split.
    + destruct (games_file st !! game_id);
        [apply lookup_delete_ne; congruence|reflexivity].
    + destruct (bool_decide (game_id ∈ settings_games st)); [|reflexivity].
      apply remove_first_other. exact Hne.
  - intros Hnd.
    destruct (decide (game_id ∈ settings_games st)) as [Hin|Hnotin].
    + rewrite (bool_decide_eq_true_2 _ Hin). apply remove_first_gone, Hnd.
    + rewrite (bool_decide_eq_false_2 _ Hnotin). exact Hnotin.
  - intros before after Heq Hnotin.
    assert (Hin : game_id ∈ settings_games st)
      by (rewrite Heq; apply elem_of_app; right; left).
    rewrite (bool_decide_eq_true_2 _ Hin), Heq. clear Heq Hin.
    induction before as [|z before IH]; simpl.
    + rewrite String.eqb_refl. reflexivity.
    + apply not_elem_of_cons in Hnotin as [Hne Hnotin].
      destruct (String.eqb_spec z game_id) as [->|_]; [congruence|].
      rewrite IH by exact Hnotin. reflexivity.
Qed.

End GamesStore.

Section LogsStore.

Lemma add_log_ends_with_entry (entry : LogEntry) (st : Storage) :
  exists older, logs_file (add_log entry st) = older ++ [entry].
Proof.
  unfold add_log. simpl.
  destruct (1000 <? length (logs_file st ++ [entry]))%nat.
  - unfold slice_last. rewrite drop_app_le by (rewrite length_app; simpl; lia).
    eexists. reflexivity.
  - eexists. reflexivity.
Qed.

(** X12.  [get_logs] with a positive limit gives the newest [limit] entries in
    the order they were written, all of them when there are fewer, and with
    a limit of zero or less the whole log; right after [add_log] the entry
    just written is the one [get_logs(1)] returns. *)
Theorem get_logs_newest (limit : Z) (st : Storage) (entry : LogEntry) :
  (0 < limit ->
   get_logs limit st = last_elements (Z.to_nat limit) (logs_file st) /\
   Z.of_nat (length (get_logs limit st)) = Z.min limit (Z.of_nat (length (logs_file st)))) /\
  (limit <= 0 -> get_logs limit st = logs_file st) /\
  get_logs 1 (add_log entry st) = [entry].
Proof.
  unfold get_logs. split; [|split].
  - intros Hpos. destruct (Z.ltb_spec 0 limit); [|lia].
    rewrite last_elements_drop. split; [reflexivity|].
    unfold slice_last. rewrite length_drop. lia.
  - intros Hneg. destruct (Z.ltb_spec 0 limit); [lia|reflexivity].
  - change (0 <? 1) with true. cbv iota. unfold slice_last.
    destruct (add_log_ends_with_entry entry st) as (older & ->).
    rewrite length_app.
    replace (length older + length [entry] - Z.to_nat 1)%nat
      with (length older) by (simpl; lia).
    rewrite drop_app_length. reflexivity.
Qed.

End LogsStore.

Section DropsStore.

(** X13.  [update_drop_progress] changes the first drop with the id and nothing
    else: its minutes are the new ones and it is completed exactly when
    they reach its required minutes.  Afterwards [get_drop_progress] gives
    the new minutes for that id (0 when no drop has it) and what it gave
    before for every other id. *)
Theorem update_drop_progress_then_read (drop_id : string) (minutes : Z)
  (drops : list Drop) :
  (forall before d after,
     drops = before ++ d :: after -> Drop_id d = drop_id ->
     Forall (fun x => Drop_id x <> drop_id) before ->
     update_drop_progress drop_id minutes drops
     = before ++ with_progress minutes d :: after /\
     Drop_current_minutes (with_progress minutes d) = minutes /\
     (Drop_is_completed (with_progress minutes d) = true <->
      Drop_required_minutes d <= minutes)) /\
  (Forall (fun x => Drop_id x <> drop_id) drops ->
   update_drop_progress drop_id minutes drops = drops) /\
  get_drop_progress drop_id (update_drop_progress drop_id minutes drops)
  = (if bool_decide (drop_id ∈ Drop_id <$> drops) then minutes else 0) /\
  (forall other, other <> drop_id ->
     get_drop_progress other (update_drop_progress drop_id minutes drops)
     = get_drop_progress other drops).
Proof.
  split; [|split; [|split]].
  - intros before d after -> Hid Hbefore. split; [|split].
    + induction Hbefore as [|x before Hx _ IH]; simpl.
      * rewrite Hid, String.eqb_refl. reflexivity.
      * destruct (String.eqb_spec (Drop_id x) drop_id); [contradiction|].
        rewrite IH. reflexivity.
    + reflexivity.
    + simpl. apply Z.leb_le.
  - induction 1 as [|x rest Hx _ IH]; simpl; [reflexivity|].
    destruct (String.eqb_spec (Drop_id x) drop_id); [contradiction|].
    rewrite IH. reflexivity.
  - induction drops as [|x rest IH]; simpl; [reflexivity|].
    destruct (String.eqb_spec (Drop_id x) drop_id) as [Heq|Hne]; simpl.
    + rewrite Heq, String.eqb_refl.
      rewrite bool_decide_eq_true_2 by left.
      reflexivity.
    + destruct (String.eqb_spec (Drop_id x) drop_id); [contradiction|].
      rewrite IH.
      rewrite (bool_decide_ext (drop_id ∈ Drop_id <$> rest)
                 (drop_id ∈ Drop_id x :: (Drop_id <$> rest))); [reflexivity|].
      rewrite elem_of_cons.
      split; [auto|]. intros [?|?]; [congruence|assumption].
  - intros other Hne. induction drops as [|x rest IH]; simpl; [reflexivity|].
    destruct (String.eqb_spec (Drop_id x) drop_id) as [Heq|Hx]; simpl.
    + rewrite Heq. destruct (String.eqb_spec drop_id other); [congruence|].
      reflexivity.
    + destruct (String.eqb (Drop_id x) other); [reflexivity|exact IH].
Qed.

End DropsStore.

(** * Further properties of core/miner.py *)

Section Steady.

Context (emit_raises : client -> message -> option string).

Local Abbreviation steady := (Miner.steady emit_raises).
Local Abbreviation _log := (Miner._log emit_raises).
Local Abbreviation _update_status := (Miner._update_status emit_raises).

Lemma steady_refl m : steady m m.
Proof. unfold Miner.steady. repeat split; auto. Qed.

Lemma steady_trans m1 m2 m3 : steady m1 m2 -> steady m2 m3 -> steady m1 m3.
Proof.
  unfold Miner.steady.
  intros (Hsub & Hkeep & Hs & Hg & Hl) (Hsub' & Hkeep' & Hs' & Hg' & Hl').
  split; [intros x Hx; apply Hsub, Hsub', Hx|].
  split; [intros c Hc Hok; apply Hkeep'; [apply Hkeep|]; assumption|].
  split; [congruence|]. split; [congruence|]. auto.
Qed.

(** Changes that touch neither the subscribers nor the files. *)
Lemma steady_same m m' :
  ws_clients m' = ws_clients m -> storage m' = storage m -> steady m m'.
Proof.
  intros Hws Hst. unfold Miner.steady. rewrite Hws, Hst. repeat split; auto.
Qed.

Lemma log_steady now level msg game_id stream_id m :
  steady m (_log now level msg game_id stream_id m).
Proof.
  unfold Miner.steady, Miner._log. cbv zeta.
  set (entry := {| LogEntry_timestamp := now; LogEntry_level := level;
                   LogEntry_message := msg; LogEntry_game_id := game_id;
                   LogEntry_stream_id := stream_id |}).
  destruct (broadcast_log_frame emit_raises entry
              (with_storage (add_log entry (storage m)) m)) as [_ Hst].
  destruct (broadcast_log_result emit_raises entry
              (with_storage (add_log entry (storage m)) m)) as [Hws _].
  rewrite Hst, Hws. cbn [storage ws_clients with_storage].
  split; [intros x; rewrite elem_of_difference; tauto|].
  split.
  - intros c Hc Hok. apply elem_of_difference. split; [exact Hc|].
    rewrite elem_of_list_to_set, list_elem_of_filter. intros [Hraise _].
    apply Hraise, Hok.
  - split; [reflexivity|]. split; [reflexivity|]. intros _.
    unfold add_log. cbn [logs_file].
    destruct (1000 <? length (logs_file (storage m) ++ [entry]))%nat eqn:E.
    + unfold slice_last. rewrite length_drop. lia.
    + apply Nat.ltb_ge in E. exact E.
Qed.

Lemma status_loop_steady now msg (l : list client) (m : Miner) :
  steady m
    (foldl (fun m c =>
              match emit_raises c msg with
              | None => delivered c msg m
              | Some e =>
                  remove_ws_client c
                    (_log now "WARNING"
                       ("Failed to send status update to client: " +:+ e)
                       "" "" m)
              end) m l).
Proof.
  revert m. induction l as [|c l IH]; intros m; cbn [foldl].
  - apply steady_refl.
  - destruct (emit_raises c msg) as [e|] eqn:E.
    + eapply steady_trans; [|apply IH].
      eapply steady_trans; [apply log_steady|].
      unfold Miner.steady, remove_ws_client, with_clients.
      cbn [ws_clients storage].
      split; [apply subseteq_difference_l; reflexivity|].
      split; [|auto].
      intros c' Hc' Hok. apply elem_of_difference. split; [exact Hc'|].
      intros Heq. apply elem_of_singleton in Heq as ->.
      rewrite Hok in E. discriminate.
    + eapply steady_trans; [|apply IH]. apply steady_same; reflexivity.
Qed.

Lemma update_status_steady now m : steady m (_update_status now m).
Proof.
  unfold Miner._update_status, Miner._broadcast_status_update. cbv zeta.
  match goal with
  | |- context [with_storage ?st m] => set (m1 := with_storage st m)
  end.
  assert (H1 : steady m m1).
  { unfold Miner.steady. subst m1. simpl. repeat split; auto. }
  destruct (decide (ws_clients m1 = ∅)); [exact H1|].
  eapply steady_trans; [exact H1|]. apply status_loop_steady.
Qed.

Local Abbreviation start := (Miner.start emit_raises).
Local Abbreviation stop := (Miner.stop emit_raises).
Local Abbreviation _switch_to_game := (Miner._switch_to_game emit_raises).
Local Abbreviation _watch_stream := (Miner._watch_stream emit_raises).
Local Abbreviation _find_and_watch_stream :=
  (Miner._find_and_watch_stream emit_raises).
Local Abbreviation _continue_watching := (Miner._continue_watching emit_raises).
Local Abbreviation _process_next_game := (Miner._process_next_game emit_raises).
Local Abbreviation loop_body := (Miner.loop_body emit_raises).
Local Abbreviation finish_all := (Miner.finish_all emit_raises).
Local Abbreviation step := (Miner.step emit_raises).
Local Abbreviation run := (Miner.run emit_raises).

Lemma switch_to_game_steady now game m : steady m (_switch_to_game now game m).
Proof.
  unfold Miner._switch_to_game.
  eapply steady_trans; [|apply update_status_steady].
  eapply steady_trans; [|apply log_steady].
  apply steady_same; reflexivity.
Qed.

Lemma watch_stream_steady env stream m : steady m (_watch_stream env stream m).
Proof.
  unfold Miner._watch_stream, _check_drop_progress.
  destruct (stream_access_token env) as [token|e].
  - eapply steady_trans; [|apply update_status_steady]. apply log_steady.
  - eapply steady_trans; [apply log_steady|]. apply steady_same; reflexivity.
Qed.

Lemma find_and_watch_steady env game m :
  steady m (_find_and_watch_stream env game m).
Proof.
  unfold Miner._find_and_watch_stream.
  destruct (streams_for_game env) as [[|first others]|e].
  - apply log_steady.
  - eapply steady_trans; [|apply watch_stream_steady].
    eapply steady_trans; [|apply log_steady].
    apply steady_same; reflexivity.
  - apply log_steady.
Qed.

Lemma continue_watching_steady env m : steady m (_continue_watching env m).
Proof.
  unfold Miner._continue_watching.
  destruct (current_stream m); [apply watch_stream_steady|apply steady_refl].
Qed.

Lemma loop_body_steady env m : steady m (loop_body env m).
Proof.
  unfold Miner.loop_body, Miner._process_next_game.
  destruct (is_logged_in (twitch_auth env)) as [[|]|e]; cbn [bind negb];
    try apply log_steady.
  destruct (settings_games (storage m)) as [|game_id rest];
    [apply log_steady|].
  destruct (select_next_game (game_id :: rest) (get_games (storage m)))
    as [next_game|]; [|apply log_steady].
  fold (Miner.after_switch emit_raises (now env) next_game m).
  assert (Hswitch : steady m (Miner.after_switch emit_raises (now env)
                                next_game m)).
  { unfold Miner.after_switch.
    destruct (current_game m) as [g|];
      [destruct (String.eqb (Game_id g) (Game_id next_game))|];
      first [apply steady_refl | apply switch_to_game_steady]. }
  eapply steady_trans; [exact Hswitch|].
  destruct (current_stream (Miner.after_switch emit_raises (now env)
                              next_game m)) as [stream|];
    [destruct (_is_stream_live env stream _)|];
    first [apply continue_watching_steady | apply find_and_watch_steady].
Qed.

Lemma finish_all_steady envs m : steady m (finish_all envs m).
Proof.
  unfold Miner.finish_all. revert m.
  induction envs as [|env envs IH]; intros m; simpl; [apply steady_refl|].
  eapply steady_trans; [apply loop_body_steady|apply IH].
Qed.

Lemma start_steady now m : steady m (start now m).
Proof.
  unfold Miner.start. destruct (is_running m); [apply steady_refl|].
  eapply steady_trans; [|apply update_status_steady].
  eapply steady_trans; [|apply log_steady].
  apply steady_same; reflexivity.
Qed.

Lemma stop_steady now envs m : steady m (stop now (finish_all envs) m).
Proof.
  unfold Miner.stop. destruct (is_running m); simpl; [|apply steady_refl].
  eapply steady_trans; [|apply update_status_steady].
  eapply steady_trans; [|apply log_steady].
  eapply steady_trans; [|apply steady_same; reflexivity].
  eapply steady_trans; [|apply finish_all_steady].
  apply steady_same; reflexivity.
Qed.

Lemma step_steady sys ev : steady (miner sys) (miner (step sys ev)).
Proof.
  destruct ev as [now|now during_join| |env]; simpl.
  - apply start_steady.
  - apply stop_steady.
  - destruct (loop_guard (miner sys)); apply steady_refl.
  - destruct (in_flight sys); [apply steady_refl|apply loop_body_steady].
Qed.

Lemma run_steady evs sys : steady (miner sys) (miner (run sys evs)).
Proof.
  unfold Miner.run. revert sys.
  induction evs as [|ev evs IH]; intros sys; simpl; [apply steady_refl|].
  eapply steady_trans; [apply step_steady|apply IH].
Qed.

(** X14.  Over any sequence of [start()], [stop()] and loop passes the
    orchestrator adds no subscriber and never drops one whose [emit] does
    not raise. *)
Theorem healthy_subscribers_are_kept (sys : System) (evs : list event) :
  ws_clients (miner (run sys evs)) ⊆ ws_clients (miner sys) /\
  forall c,
    c ∈ ws_clients (miner sys) ->
    (forall msg, emit_raises c msg = None) ->
    c ∈ ws_clients (miner (run sys evs)).
Proof.
  destruct (run_steady evs sys) as (Hsub & Hkeep & _).
  split; [exact Hsub|exact Hkeep].
Qed.

(** X15.  Over any such sequence a log file that holds at most 1000 entries
    keeps holding at most 1000. *)
Theorem log_file_stays_bounded (sys : System) (evs : list event) :
  (length (logs_file (storage (miner sys))) <= 1000)%nat ->
  (length (logs_file (storage (miner (run sys evs)))) <= 1000)%nat.
Proof.
  destruct (run_steady evs sys) as (_ & _ & _ & _ & Hlogs). exact Hlogs.
Qed.

(** X16.  Over any such sequence the orchestrator leaves the watch list and the
    catalog of games as they are. *)
Theorem watch_list_is_only_read (sys : System) (evs : list event) :
  settings_games (storage (miner (run sys evs)))
  = settings_games (storage (miner sys)) /\
  get_games (storage (miner (run sys evs))) = get_games (storage (miner sys)).
Proof.
  destruct (run_steady evs sys) as (_ & _ & Hs & Hg & _).
  split; [exact Hs|exact Hg].
Qed.

End Steady.

Section Passes.

Context (emit_raises : client -> message -> option string).

Local Abbreviation _log := (Miner._log emit_raises).
Local Abbreviation _update_status := (Miner._update_status emit_raises).
Local Abbreviation _switch_to_game := (Miner._switch_to_game emit_raises).
Local Abbreviation _find_and_watch_stream :=
  (Miner._find_and_watch_stream emit_raises).
Local Abbreviation _process_next_game := (Miner._process_next_game emit_raises).
Local Abbreviation loop_body := (Miner.loop_body emit_raises).
Local Abbreviation stop := (Miner.stop emit_raises).
Local Abbreviation finish_all := (Miner.finish_all emit_raises).

Lemma log_appends now level msg game_id stream_id m :
  logs_file (storage (_log now level msg game_id stream_id m))
  = logs_file (add_log {| LogEntry_timestamp := now; LogEntry_level := level;
                          LogEntry_message := msg; LogEntry_game_id := game_id;
                          LogEntry_stream_id := stream_id |} (storage m)).
Proof.
  unfold Miner._log. rewrite (proj2 (broadcast_log_frame _ _ _)). reflexivity.
Qed.

(** X17.  A pass that finds the session not logged in, the watch list empty, or
    none of its ids in the catalog only writes one log entry: game, stream,
    watch start, running flag and stop event stay as they are and no
    snapshot is written. *)
Theorem pass_without_target (env : tick) (m : Miner) :
  is_logged_in (twitch_auth env) = Ok false \/
  (is_logged_in (twitch_auth env) = Ok true /\
   select_next_game (settings_games (storage m)) (get_games (storage m)) = None) ->
  control (loop_body env m) = control m /\
  status_writes (storage (loop_body env m)) = status_writes (storage m) /\
  exists level msg,
    logs_file (storage (loop_body env m))
    = logs_file (add_log {| LogEntry_timestamp := now env;
                            LogEntry_level := level; LogEntry_message := msg;
                            LogEntry_game_id := ""; LogEntry_stream_id := "" |}
                         (storage m)) /\
    (is_logged_in (twitch_auth env) = Ok false ->
     level = "WARNING" /\ msg = "Not logged in, cannot mine").
Proof.
  intros Hcase.
  assert (Hpass : exists level msg,
            loop_body env m = _log (now env) level msg "" "" m /\
            (is_logged_in (twitch_auth env) = Ok false ->
             level = "WARNING" /\ msg = "Not logged in, cannot mine")).
  { unfold Miner.loop_body, Miner._process_next_game.
    destruct Hcase as [Hout|[Hin Hnone]].
    - rewrite Hout. cbn [bind negb]. eauto.
    - rewrite Hin. cbn [bind negb].
      destruct (settings_games (storage m)) as [|game_id rest].
      + exists "DEBUG", "No games in watch list". split; [reflexivity|].
        discriminate.
      + rewrite Hnone.
        exists "WARNING", "No valid games found in watch list".
        split; [reflexivity|discriminate]. }
  destruct Hpass as (level & msg & -> & Hlevel).
  split; [apply log_control|]. split; [apply log_status_writes|].
  exists level, msg. split; [apply log_appends|exact Hlevel].
Qed.

(** X18.  [_switch_to_game] makes the game current, drops the stream and the
    watch start, and writes one snapshot that shows the game with no stream
    and a watch duration of zero. *)
Theorem switch_to_game_resets_watch (now : Z) (game : Game) (m : Miner) :
  control (_switch_to_game now game m)
  = (is_running m, Some game, None, None, _stop_event m) /\
  exists status,
    status_writes (storage (_switch_to_game now game m))
    = status_writes (storage m) ++ [status] /\
    status_is_running status = is_running m /\
    status_current_game status = Some game /\
    status_current_stream status = None /\
    status_watch_duration status = 0.
Proof.
  split; [apply switch_to_game_control|].
  unfold Miner._switch_to_game. cbv zeta.
  rewrite update_status_writes, log_status_writes.
  eexists. split; [reflexivity|].
  match goal with
  | |- context [snapshot now ?x] =>
      pose proof (log_control emit_raises now "INFO"
                    ("Switching to game: " +:+ Game_display_name game)
                    (Game_id game) "" (with_target (Some game) None None m)) as Hc;
      unfold control in Hc; injection Hc as Hr Hg Hs Hw _
  end.
  unfold snapshot. cbn [status_is_running status_current_game
                        status_current_stream status_watch_duration].
  rewrite Hr, Hg, Hs, Hw. repeat split; reflexivity.
Qed.

Lemma nth_mod_elem {A} (k : nat) (l : list A) (d : A) :
  l <> [] -> nth (k `mod` length l)%nat l d ∈ l.
Proof.
  intros Hne. apply list_elem_of_In, nth_In, Nat.mod_upper_bound.
  destruct l; [contradiction|discriminate].
Qed.

(** X19.  When discovery returns streams, the stream adopted is one of the first
    five, for the selected game, with the watch starting now; it stays
    current if the watch request succeeds and is dropped again if that
    fails.  When discovery fails or returns nothing, current stream and
    watch start are left as they were. *)
Theorem find_and_watch_picks_top_five (env : tick) (game : Game) (m : Miner) :
  (forall first others,
     streams_for_game env = Ok (first :: others) ->
     match stream_access_token env with
     | Ok _ =>
         exists d,
           d ∈ take 5 (first :: others) /\
           current_stream (_find_and_watch_stream env game m)
           = Some (stream_of_data game d) /\
           watch_start_time (_find_and_watch_stream env game m)
           = Some (Miner.now env)
     | Raise _ =>
         current_stream (_find_and_watch_stream env game m) = None /\
         watch_start_time (_find_and_watch_stream env game m) = None
     end) /\
  (streams_for_game env = Ok [] \/ (exists e, streams_for_game env = Raise e) ->
   control (_find_and_watch_stream env game m) = control m).
Proof.
  split.
  - intros first others Hfound. unfold Miner._find_and_watch_stream.
    rewrite Hfound. cbv zeta.
    set (top := take 5 (first :: others)).
    set (d := nth (choice env `mod` length top)%nat top first).
    fold (stream_of_data game d).
    match goal with
    | |- context [Miner._watch_stream emit_raises env ?s ?x] =>
        pose proof (watch_stream_control emit_raises env s x) as Hc;
        pose proof (log_control emit_raises (Miner.now env) "INFO"
                      ("Started watching stream: "
                       +:+ Stream_user_name (stream_of_data game d)
                       +:+ " (" +:+ Stream_title (stream_of_data game d) +:+ ")")
                      (Game_id game) (Stream_id (stream_of_data game d))
                      (with_target (current_game m)
                         (Some (stream_of_data game d))
                         (Some (Miner.now env)) m)) as Hl
    end.
    unfold control in Hl. injection Hl as Hr Hg Hs Hw He.
    destruct (stream_access_token env) as [token|e].
    + unfold control in Hc. injection Hc as _ _ Hs' Hw' _.
      exists d. split; [apply nth_mod_elem; discriminate|].
      split; [exact (eq_trans Hs' Hs)|exact (eq_trans Hw' Hw)].
    + unfold control in Hc. injection Hc as _ _ Hs' Hw' _. auto.
  - intros [Hnone|[e Hfail]]; unfold Miner._find_and_watch_stream.
    + rewrite Hnone. apply log_control.
    + rewrite Hfail. apply log_control.
Qed.


End Passes.

(** ** The further properties at concrete inputs *)

Lemma parse_streams_reads_edges_witness :
  parse_streams [PDict discovery_answer]
  = Ok [stream_of_node alice_node
          [("login", PStr "alice"); ("displayName", PStr "Alice")] []] /\
  parse_streams [PDict broken_answer] = Raise (AttributeError "get").
Proof.
  assert (Hcarries : carries_edges discovery_answer (PList discovery_edges))
    by (do 3 eexists; repeat split; reflexivity).
  assert (Hall : Forall2 edge_yields discovery_edges
                   [Some (stream_of_node alice_node
                            [("login", PStr "alice");
                             ("displayName", PStr "Alice")] []);
                    None]).
  { constructor; [apply edge_with_node; reflexivity|].
    constructor; [apply edge_without_node; reflexivity|constructor]. }
  assert (Hbroken : carries_edges broken_answer
                      (PList (discovery_edges ++ [null_broadcaster_edge])))
    by (do 3 eexists; repeat split; reflexivity).
  assert (Hbad : edge_breaks null_broadcaster_edge)
    by (eapply broadcaster_not_object; reflexivity).
  split.
  - exact (proj1 (proj1 (parse_streams_reads_edges discovery_answer []
                           discovery_edges Hcarries) _ Hall)).
  - exact (proj1 (proj2 (parse_streams_reads_edges broken_answer []
                           (discovery_edges ++ [null_broadcaster_edge]) Hbroken))
             discovery_edges _ null_broadcaster_edge [] eq_refl Hall Hbad).
Defined.

Lemma log_file_stays_bounded_witness :
  (length (logs_file (storage (miner (System_init full_log)))) <= 1000)%nat /\
  (length (logs_file (storage (miner (run quiet (System_init full_log)
                                        [Start 0; Enter; Stop 9 []]))))
   <= 1000)%nat.
Proof.
  assert (H : (length (logs_file (storage (miner (System_init full_log))))
               <= 1000)%nat) by (vm_compute; lia).
  split; [exact H|].
  exact (log_file_stays_bounded quiet (System_init full_log)
           [Start 0; Enter; Stop 9 []] H).
Defined.

Lemma pass_without_target_witness :
  control (loop_body quiet
             {| now := 10; twitch_auth := AuthManager_init;
                streams_for_game := Ok [streamA]; choice := 0;
                stream_access_token := Ok (PDict []) |}
             (start quiet 0 (Miner_init store1)))
  = control (start quiet 0 (Miner_init store1)).
Proof.
  apply (pass_without_target quiet
           {| now := 10; twitch_auth := AuthManager_init;
              streams_for_game := Ok [streamA]; choice := 0;
              stream_access_token := Ok (PDict []) |}
           (start quiet 0 (Miner_init store1))).
  left. reflexivity.
Defined.


Section LogFanOut.

Context (emit_raises : client -> message -> option string).

(** X21.  Publishing a log event with any number of failing subscribers: exactly
    the subscribers whose [emit] raises on it leave the set, and exactly the
    others are recorded as served, each once. *)
Theorem broadcast_log_update_outcome (entry : LogEntry) (m : Miner) (c : client) :
  (c ∈ ws_clients (_broadcast_log_update emit_raises entry m) <->
   c ∈ ws_clients m /\ emit_raises c (LogMessage entry) = None) /\
  exists served,
    emitted (_broadcast_log_update emit_raises entry m)
    = emitted m ++ ((fun c => (c, LogMessage entry)) <$> served) /\
    NoDup served /\
    (c ∈ served <-> c ∈ ws_clients m /\ emit_raises c (LogMessage entry) = None).
Proof.
  destruct (broadcast_log_result emit_raises entry m) as [Hws Hem]. split.
  - rewrite Hws, elem_of_difference, elem_of_list_to_set, list_elem_of_filter,
      elem_of_elements.
    destruct (emit_raises c (LogMessage entry)) as [e|].
    + split; [intros [Hc Hn]|intros [_ H]; discriminate].
      exfalso. apply Hn. split; [discriminate|exact Hc].
    + split; [intros [Hc _]; auto|]. intros [Hc _]. split; [exact Hc|].
      intros [Hn _]. apply Hn. reflexivity.
  - eexists. split; [exact Hem|]. split.
    + apply NoDup_filter, NoDup_elements.
    + rewrite list_elem_of_filter, elem_of_elements. tauto.
Qed.

End LogFanOut.
